(** * MultiChoiceVoting: the encrypted multi-choice poll contract

    A shallow embedding of the Solidity contract [MultiChoiceVoting]
    (createPoll, vote, requestFinalization, decryptionCallback and the view
    functions) together with an idealised model of the FHE runtime it calls
    (ciphertext handles, the access-control list, decryption requests).

    Unsigned Solidity integers are modelled in [N]; checked arithmetic
    (Solidity 0.8) reverts with [Panic] where it would overflow, and the
    encrypted 32-bit arithmetic wraps modulo 2^32. *)

From Stdlib Require Import NArith Ascii String List Lia Permutation.
From Stdlib Require Strings.Byte.
From stdpp Require Import base option list gmap.

Local Open Scope string_scope.
Local Open Scope N_scope.

(** ** Basic types *)

Definition address := N.
Definition bytes := list Byte.byte.

#[global] Instance byte_eq_decision : EqDecision Byte.byte := Byte.byte_eq_dec.

Definition uint32_modulus : N := 2 ^ 32.
Definition uint256_max : N := 2 ^ 256 - 1.

(** ** Outcome of a call

    A call either returns, reverts with the message of a failed [require],
    or panics (checked arithmetic overflow 0x11, array index out of bounds
    0x32). *)

Inductive result (A : Type) : Type :=
| Ok (a : A)
| Revert (reason : string)
| Panic (code : N).

Arguments Ok {A} a.
Arguments Revert {A} reason.
Arguments Panic {A} code.

#[global] Instance result_ret : MRet result := fun A a => Ok a.

#[global] Instance result_bind : MBind result := fun A B k c =>
  match c with
  | Ok a => k a
  | Revert m => Revert m
  | Panic n => Panic n
  end.

Definition require (cond : bool) (reason : string) : result unit :=
  if cond then Ok tt else Revert reason.

(** [x + 1] on a uint256 with Solidity's overflow check. *)
Definition checked_succ (x : N) : result N :=
  if x <? uint256_max then Ok (x + 1) else Panic 17.

(** Monadic left fold: the body of a [for] loop run over its indices. *)
Fixpoint foldM {A B} (f : B -> A -> result B) (l : list A) (b : B) : result B :=
  match l with
  | [] => Ok b
  | x :: l' => b' ← f b x; foldM f l' b'
  end.

(** The error names of the specification, and the revert message each one
    stands for. *)
Inductive SpecError :=
| InvalidTitle
| InvalidOptionCount
| InvalidTimeRange
| NotFound
| VotingNotStarted
| VotingEnded
| AlreadyFinalized
| AlreadyVoted
| InvalidProof
| DecryptionAlreadyPending
| UnknownRequest
| ResultLengthMismatch
| NotFinalized.

Definition spec_error (reason : string) : option SpecError :=
  if String.eqb reason "Title cannot be empty" then Some InvalidTitle
  else if String.eqb reason "Must have 2-16 options" then Some InvalidOptionCount
  else if String.eqb reason "End time must be after start time" then Some InvalidTimeRange
  else if String.eqb reason "End time must be in the future" then Some InvalidTimeRange
  else if String.eqb reason "Poll does not exist" then Some NotFound
  else if String.eqb reason "Voting has not started" then Some VotingNotStarted
  else if String.eqb reason "Voting has ended" then Some VotingEnded
  else if String.eqb reason "Poll is finalized" then Some AlreadyFinalized
  else if String.eqb reason "Poll already finalized" then Some AlreadyFinalized
  else if String.eqb reason "Already voted" then Some AlreadyVoted
  else if String.eqb reason "Invalid input proof" then Some InvalidProof
  else if String.eqb reason "Decryption already pending" then Some DecryptionAlreadyPending
  else if String.eqb reason "Invalid request ID" then Some UnknownRequest
  else if String.eqb reason "No pending decryption" then Some UnknownRequest
  else if String.eqb reason "Result length mismatch" then Some ResultLengthMismatch
  else if String.eqb reason "Poll not finalized" then Some NotFinalized
  else None.

(** [fails_with c e]: the call reverted and its message is the one the
    specification calls [e]. *)
Definition fails_with {A} (c : result A) (e : SpecError) : Prop :=
  exists reason, c = Revert reason /\ spec_error reason = Some e.

(** ** The FHE runtime, idealised

    A ciphertext handle is determined by the operation that produced it and
    by its operands, so it is modelled as the term of that computation;
    two different computations never share a handle.  [euint32] and [ebool]
    are both wrappers around the same 32-byte handle in the library. *)

Record externalEuint32 := mkExternal {
  sealed : N;            (* the cleartext the client encrypted *)
  issued_to : address;   (* the account the input was created for *)
  attestation : bytes    (* the input proof the client obtained for it *)
}.

#[global] Instance externalEuint32_eq_decision : EqDecision externalEuint32.
Proof. solve_decision. Defined.

Inductive handle :=
| Uninit                          (* euint32.wrap(0): a slot of new euint32[](n) *)
| Trivial (v : N)                 (* FHE.asEuint32(v) *)
| Input (e : externalEuint32)     (* FHE.fromExternal(e, proof) *)
| Eq (a b : handle)               (* FHE.eq(a, b) *)
| Select (c a b : handle)         (* FHE.select(c, a, b) *)
| Add (a b : handle).             (* FHE.add(a, b) *)

#[global] Instance handle_eq_decision : EqDecision handle.
Proof. solve_decision. Defined.

Abbreviation euint32 := handle (only parsing).
Abbreviation ebool := handle (only parsing).

(** What the decryption authority would reveal for a handle. *)
Fixpoint decrypt (h : handle) : N :=
  match h with
  | Uninit => 0
  | Trivial v => v mod uint32_modulus
  | Input e => sealed e mod uint32_modulus
  | Eq a b => if decrypt a =? decrypt b then 1 else 0
  | Select c a b => if decrypt c =? 0 then decrypt b else decrypt a
  | Add a b => (decrypt a + decrypt b) mod uint32_modulus
  end.

(** The library replaces an uninitialised operand by a trivial encryption
    of zero before it computes. *)
Definition initialized (h : handle) : handle :=
  match h with
  | Uninit => Trivial 0
  | _ => h
  end.

Definition FHE_asEuint32 (v : N) : euint32 := Trivial v.
Definition FHE_eq (a b : euint32) : ebool := Eq (initialized a) (initialized b).
Definition FHE_select (c : ebool) (a b : euint32) : euint32 := Select c a b.
Definition FHE_add (a b : euint32) : euint32 := Add (initialized a) (initialized b).

(** [FHE.fromExternal]: the input proof must be the one issued for this
    handle, and the handle must have been created for the caller; otherwise
    the library reverts (the message below stands for its error). *)
Definition verifyInput (e : externalEuint32) (proof : bytes) (sender : address) : bool :=
  bool_decide (proof = attestation e) && (issued_to e =? sender).

Definition FHE_fromExternal (e : externalEuint32) (proof : bytes) (sender : address)
  : result euint32 :=
  require (verifyInput e proof sender) "Invalid input proof" ;;
  Ok (Input e).

(** The access-control list: the pairs (handle, account) granted so far. *)
Definition ACL := list (handle * address).

Definition FHE_allow (acl : ACL) (h : handle) (account : address) : ACL :=
  (h, account) :: acl.

Definition isAllowed (acl : ACL) (h : handle) (account : address) : bool :=
  bool_decide ((h, account) ∈ acl).

(** ** Contract storage *)

Record Poll := mkPoll {
  title : string;
  options : list string;
  startTime : N;                  (* uint64 *)
  endTime : N;                    (* uint64 *)
  creator : address;
  finalized : bool;
  decryptionPending : bool;
  requestId : N;
  encryptedCounts : list euint32; (* encrypted vote count per option *)
  decryptedCounts : list N;       (* revealed counts after finalization *)
  totalVoters : N
}.

Inductive Event :=
| PollCreated (pollId : N) (title : string) (options : list string)
              (startTime endTime : N) (creator : address)
| VoteCast (pollId : N) (voter : address)
| FinalizationRequested (pollId requestId : N)
| PollFinalized (pollId : N) (results : list N).

(** The contract's storage, followed by the part of the FHE runtime the
    contract writes to (grants, decryption requests) and the event log,
    newest entry first. *)
Record State := mkState {
  _polls : gmap N Poll;
  _pollCount : N;
  hasVoted : gmap (N * address) bool;
  _requestToPoll : gmap N N;
  acl : ACL;
  decryptionRequests : list (N * list handle);
  events : list Event
}.

(** What a transaction sees of its surroundings: the caller, the block
    time, the contract's own address, and the id that the next
    [FHE.requestDecryption] hands back. *)
Record Env := mkEnv {
  msg_sender : address;
  block_timestamp : N;
  this : address;
  oracle_requestId : N
}.

(** A Solidity mapping reads as the zero value where nothing was written. *)
Definition zeroPoll : Poll :=
  mkPoll EmptyString [] 0 0 0 false false 0 [] [] 0.

Definition pollAt (s : State) (pollId : N) : Poll :=
  default zeroPoll (_polls s !! pollId).

Definition votedAt (s : State) (pollId : N) (user : address) : bool :=
  default false (hasVoted s !! (pollId, user)).

Definition requestToPollAt (s : State) (rid : N) : N :=
  default 0 (_requestToPoll s !! rid).

Definition initialState : State :=
  mkState ∅ 0 ∅ ∅ [] [] [].

(** modifier pollExists *)
Definition pollExists (s : State) (pollId : N) : result unit :=
  require (pollId <? _pollCount s) "Poll does not exist".

(** ** createPoll *)

Definition createPoll (s : State) (env : Env)
    (title : string) (options : list string) (startTime endTime : N)
  : result (State * N) :=
  require (0 <? String.length title)%nat "Title cannot be empty" ;;
  require ((2 <=? length options)%nat && (length options <=? 16)%nat)
          "Must have 2-16 options" ;;
  require (startTime <? endTime) "End time must be after start time" ;;
  require (block_timestamp env <? endTime) "End time must be in the future" ;;
  let pollId := _pollCount s in
  count' ← checked_succ (_pollCount s) ;
  let poll :=
    {| title := title;
       options := options;
       startTime := startTime;
       endTime := endTime;
       creator := msg_sender env;
       finalized := false;
       decryptionPending := false;
       requestId := 0;
       encryptedCounts := replicate (length options) Uninit;
       decryptedCounts := replicate (length options) 0;
       totalVoters := 0 |} in
  Ok ({| _polls := <[pollId := poll]> (_polls s);
         _pollCount := count';
         hasVoted := hasVoted s;
         _requestToPoll := _requestToPoll s;
         acl := acl s;
         decryptionRequests := decryptionRequests s;
         events := PollCreated pollId title options startTime endTime (msg_sender env)
                   :: events s |},
      pollId).

(** ** vote *)

(** One pass of the loop body for option [i]: the counter of option [i] is
    replaced by its sum with the encrypted 0/1 match flag, and the new
    counter is opened to the contract, the caller and the creator. *)
Definition voteStep (voteIndex : euint32) (env : Env) (pollCreator : address)
    (st : list euint32 * ACL) (i : nat) : result (list euint32 * ACL) :=
  let '(counts, grants) := st in
  match counts !! i with
  | None => Panic 50
  | Some count =>
      let isMatch := FHE_eq voteIndex (FHE_asEuint32 (N.of_nat i mod uint32_modulus)) in
      let increment := FHE_select isMatch (FHE_asEuint32 1) (FHE_asEuint32 0) in
      let count' := FHE_add count increment in
      let grants := FHE_allow grants count' (this env) in
      let grants := FHE_allow grants count' (msg_sender env) in
      let grants := FHE_allow grants count' pollCreator in
      Ok (<[i := count']> counts, grants)
  end.

Definition vote (s : State) (env : Env)
    (pollId : N) (encryptedOptionIndex : externalEuint32) (inputProof : bytes)
  : result State :=
  pollExists s pollId ;;
  let poll := pollAt s pollId in
  require (startTime poll <=? block_timestamp env) "Voting has not started" ;;
  require (block_timestamp env <=? endTime poll) "Voting has ended" ;;
  require (negb (finalized poll)) "Poll is finalized" ;;
  require (negb (votedAt s pollId (msg_sender env))) "Already voted" ;;
  voteIndex ← FHE_fromExternal encryptedOptionIndex inputProof (msg_sender env) ;
  st ← foldM (voteStep voteIndex env (creator poll))
             (seq 0 (length (options poll)))
             (encryptedCounts poll, acl s) ;
  total' ← checked_succ (totalVoters poll) ;
  let poll' :=
    {| title := title poll;
       options := options poll;
       startTime := startTime poll;
       endTime := endTime poll;
       creator := creator poll;
       finalized := finalized poll;
       decryptionPending := decryptionPending poll;
       requestId := requestId poll;
       encryptedCounts := st.1;
       decryptedCounts := decryptedCounts poll;
       totalVoters := total' |} in
  Ok {| _polls := <[pollId := poll']> (_polls s);
        _pollCount := _pollCount s;
        hasVoted := <[(pollId, msg_sender env) := true]> (hasVoted s);
        _requestToPoll := _requestToPoll s;
        acl := st.2;
        decryptionRequests := decryptionRequests s;
        events := VoteCast pollId (msg_sender env) :: events s |}.

(** ** requestFinalization *)

Definition FHE_toBytes32 (h : euint32) : handle := h.

(** [FHE.requestDecryption(ciphertexts, selector)]: the library first opens
    every ciphertext for public decryption, which the access-control list
    refuses unless the calling contract itself holds a grant on it (the
    message below stands for the list's error [SenderNotAllowed]); the
    request is then registered under the id that is handed back. *)
Definition FHE_requestDecryption (grants : ACL) (env : Env) (ciphertexts : list handle)
  : result N :=
  require (forallb (fun h => isAllowed grants h (this env)) ciphertexts)
          "SenderNotAllowed" ;;
  Ok (oracle_requestId env).

Definition requestFinalization (s : State) (env : Env) (pollId : N) : result State :=
  pollExists s pollId ;;
  let poll := pollAt s pollId in
  (* REMOVED: Time restriction - allow decryption anytime for testing *)
  require (negb (finalized poll)) "Poll already finalized" ;;
  require (negb (decryptionPending poll)) "Decryption already pending" ;;
  let ciphertexts := map FHE_toBytes32 (encryptedCounts poll) in
  rid ← FHE_requestDecryption (acl s) env ciphertexts ;
  let poll' :=
    {| title := title poll;
       options := options poll;
       startTime := startTime poll;
       endTime := endTime poll;
       creator := creator poll;
       finalized := finalized poll;
       decryptionPending := true;
       requestId := rid;
       encryptedCounts := encryptedCounts poll;
       decryptedCounts := decryptedCounts poll;
       totalVoters := totalVoters poll |} in
  Ok {| _polls := <[pollId := poll']> (_polls s);
        _pollCount := _pollCount s;
        hasVoted := hasVoted s;
        _requestToPoll := <[rid := pollId]> (_requestToPoll s);
        acl := acl s;
        decryptionRequests := (rid, ciphertexts) :: decryptionRequests s;
        events := FinalizationRequested pollId rid :: events s |}.

(** ** decryptionCallback *)

(** The [cleartexts] argument is a byte string that the callback decodes
    with [abi.decode(cleartexts, (uint32[]))]: either it is the encoding of
    an array, or decoding reverts (without a message). *)
Inductive payload :=
| Encoded (values : list N)
| Malformed.

Definition abi_decode (cleartexts : payload) : result (list N) :=
  match cleartexts with
  | Encoded values => Ok values
  | Malformed => Revert EmptyString
  end.

(** [poll.decryptedCounts[i] = results[i]] *)
Definition storeStep (results : list N) (stored : list N) (i : nat)
  : result (list N) :=
  match results !! i with
  | None => Panic 50
  | Some r => if (i <? length stored)%nat then Ok (<[i := r]> stored) else Panic 50
  end.

Definition decryptionCallback (s : State) (env : Env)
    (requestId_ : N) (cleartexts : payload) (signatures : list bytes)
  : result (State * bool) :=
  let pollId := requestToPollAt s requestId_ in
  require (pollId <? _pollCount s) "Invalid request ID" ;;
  let poll := pollAt s pollId in
  require (decryptionPending poll && (requestId poll =? requestId_))
          "No pending decryption" ;;
  (* Verify KMS signatures
     Note: Signature verification is skipped in mock mode for local testing
     FHE.checkSignatures(requestId, signatures); *)
  results ← abi_decode cleartexts ;
  require (length results =? length (encryptedCounts poll))%nat
          "Result length mismatch" ;;
  stored ← foldM (storeStep results) (seq 0 (length results)) (decryptedCounts poll) ;
  let poll' :=
    {| title := title poll;
       options := options poll;
       startTime := startTime poll;
       endTime := endTime poll;
       creator := creator poll;
       finalized := true;
       decryptionPending := false;
       requestId := requestId poll;
       encryptedCounts := encryptedCounts poll;
       decryptedCounts := stored;
       totalVoters := totalVoters poll |} in
  Ok ({| _polls := <[pollId := poll']> (_polls s);
         _pollCount := _pollCount s;
         hasVoted := hasVoted s;
         _requestToPoll := _requestToPoll s;
         acl := acl s;
         decryptionRequests := decryptionRequests s;
         events := PollFinalized pollId stored :: events s |},
      true).

(** ** View functions *)

Definition getPollCount (s : State) : N := _pollCount s.

Definition getPollInfo (s : State) (pollId : N)
  : result (string * list string * N * N * address * bool * bool * N) :=
  pollExists s pollId ;;
  let poll := pollAt s pollId in
  Ok (title poll, options poll, startTime poll, endTime poll, creator poll,
      finalized poll, decryptionPending poll, totalVoters poll).

Definition getEncryptedCounts (s : State) (pollId : N) : result (list handle) :=
  pollExists s pollId ;;
  Ok (map FHE_toBytes32 (encryptedCounts (pollAt s pollId))).

Definition getEncryptedCount (s : State) (pollId : N) (optionIndex : N)
  : result euint32 :=
  pollExists s pollId ;;
  let poll := pollAt s pollId in
  require (optionIndex <? N.of_nat (length (encryptedCounts poll)))
          "Invalid option index" ;;
  match encryptedCounts poll !! N.to_nat optionIndex with
  | Some c => Ok c
  | None => Panic 50
  end.

Definition getResults (s : State) (pollId : N) : result (list N) :=
  pollExists s pollId ;;
  let poll := pollAt s pollId in
  require (finalized poll) "Poll not finalized" ;;
  Ok (decryptedCounts poll).

Definition hasUserVoted (s : State) (pollId : N) (user : address) : result bool :=
  pollExists s pollId ;;
  Ok (votedAt s pollId user).

Definition getTotalVoters (s : State) (pollId : N) : result N :=
  pollExists s pollId ;;
  Ok (totalVoters (pollAt s pollId)).

Definition getRequestId (s : State) (pollId : N) : result N :=
  pollExists s pollId ;;
  Ok (requestId (pollAt s pollId)).

(** ** Transactions and traces

    Every external call runs as one transaction: when it reverts or panics,
    storage is left as it was. *)

Inductive Call :=
| CreatePoll (title : string) (options : list string) (startTime endTime : N)
| CastVote (pollId : N) (encryptedOptionIndex : externalEuint32) (inputProof : bytes)
| RequestFinalization (pollId : N)
| DecryptionCallback (requestId : N) (cleartexts : payload) (signatures : list bytes).

Definition execute (s : State) (env : Env) (call : Call) : result State :=
  match call with
  | CreatePoll t os st et => r ← createPoll s env t os st et ; Ok r.1
  | CastVote pid e proof => vote s env pid e proof
  | RequestFinalization pid => requestFinalization s env pid
  | DecryptionCallback rid cts sigs => r ← decryptionCallback s env rid cts sigs ; Ok r.1
  end.

Definition step (s : State) (tx : Env * Call) : State :=
  match execute s tx.1 tx.2 with
  | Ok s' => s'
  | _ => s
  end.

Definition run (s : State) (txs : list (Env * Call)) : State :=
  fold_left step txs s.

Definition reachable (s : State) : Prop :=
  exists txs, run initialState txs = s.

(** ** The decryption authority answering honestly

    The authority is handed the ciphertexts of a request and calls back
    with their cleartexts. *)

Definition requestedCiphertexts (s : State) (rid : N) : option (list handle) :=
  snd <$> head (filter (fun r => r.1 = rid) (decryptionRequests s)).

Definition oracleDelivers (s : State) (env : Env) (rid : N) (signatures : list bytes)
  : result (State * bool) :=
  match requestedCiphertexts s rid with
  | Some cts => decryptionCallback s env rid (Encoded (map decrypt cts)) signatures
  | None => Revert "Invalid request ID"
  end.

(** * Notions used to state the properties *)

(** ** The state each accepted call leaves, and the transition relation

    [transition s s']: storage [s'] is what an accepted call may leave from
    [s].  Every accepted call takes a transition; of the guards of each
    call the relation keeps those the invariants below rest on. *)

(** The counter of option [i] after a ballot [voteIndex] was folded in. *)
Definition bump (voteIndex : euint32) (i : nat) (count : euint32) : euint32 :=
  FHE_add count
    (FHE_select (FHE_eq voteIndex (FHE_asEuint32 (N.of_nat i mod uint32_modulus)))
                (FHE_asEuint32 1) (FHE_asEuint32 0)).

(** The state an accepted vote leaves, given the counters and grants the
    loop produced. *)
Definition afterVote (s : State) (env : Env) (pollId : N)
    (counts' : list euint32) (grants' : ACL) : State :=
  let poll := pollAt s pollId in
  {| _polls := <[pollId :=
        mkPoll (title poll) (options poll) (startTime poll) (endTime poll)
               (creator poll) (finalized poll) (decryptionPending poll)
               (requestId poll) counts' (decryptedCounts poll)
               (totalVoters poll + 1)]> (_polls s);
     _pollCount := _pollCount s;
     hasVoted := <[(pollId, msg_sender env) := true]> (hasVoted s);
     _requestToPoll := _requestToPoll s;
     acl := grants';
     decryptionRequests := decryptionRequests s;
     events := VoteCast pollId (msg_sender env) :: events s |}.

Definition afterCreate (s : State) (env : Env)
    (t : string) (os : list string) (st et : N) : State :=
  {| _polls := <[_pollCount s :=
        mkPoll t os st et (msg_sender env) false false 0
               (replicate (length os) Uninit) (replicate (length os) 0) 0]>
        (_polls s);
     _pollCount := _pollCount s + 1;
     hasVoted := hasVoted s;
     _requestToPoll := _requestToPoll s;
     acl := acl s;
     decryptionRequests := decryptionRequests s;
     events := PollCreated (_pollCount s) t os st et (msg_sender env) :: events s |}.

Definition afterRequest (s : State) (env : Env) (pollId : N) : State :=
  let poll := pollAt s pollId in
  {| _polls := <[pollId :=
        mkPoll (title poll) (options poll) (startTime poll) (endTime poll)
               (creator poll) (finalized poll) true (oracle_requestId env)
               (encryptedCounts poll) (decryptedCounts poll) (totalVoters poll)]>
        (_polls s);
     _pollCount := _pollCount s;
     hasVoted := hasVoted s;
     _requestToPoll := <[oracle_requestId env := pollId]> (_requestToPoll s);
     acl := acl s;
     decryptionRequests :=
       (oracle_requestId env, map FHE_toBytes32 (encryptedCounts poll))
       :: decryptionRequests s;
     events := FinalizationRequested pollId (oracle_requestId env) :: events s |}.

Definition afterCallback (s : State) (pollId : N) (stored : list N) : State :=
  let poll := pollAt s pollId in
  {| _polls := <[pollId :=
        mkPoll (title poll) (options poll) (startTime poll) (endTime poll)
               (creator poll) true false (requestId poll)
               (encryptedCounts poll) stored (totalVoters poll)]>
        (_polls s);
     _pollCount := _pollCount s;
     hasVoted := hasVoted s;
     _requestToPoll := _requestToPoll s;
     acl := acl s;
     decryptionRequests := decryptionRequests s;
     events := PollFinalized pollId stored :: events s |}.

Inductive transition (s : State) : State -> Prop :=
| t_create env t os st et :
    (2 <= length os <= 16)%nat ->
    _pollCount s < uint256_max ->
    transition s (afterCreate s env t os st et)
| t_vote env pid e counts' grants' :
    pid < _pollCount s ->
    finalized (pollAt s pid) = false ->
    votedAt s pid (msg_sender env) = false ->
    foldM (voteStep (Input e) env (creator (pollAt s pid)))
          (seq 0 (length (options (pollAt s pid))))
          (encryptedCounts (pollAt s pid), acl s) = Ok (counts', grants') ->
    transition s (afterVote s env pid counts' grants')
| t_request env pid :
    pid < _pollCount s ->
    finalized (pollAt s pid) = false ->
    decryptionPending (pollAt s pid) = false ->
    transition s (afterRequest s env pid)
| t_callback rid results stored :
    requestToPollAt s rid < _pollCount s ->
    decryptionPending (pollAt s (requestToPollAt s rid)) = true ->
    length results = length (encryptedCounts (pollAt s (requestToPollAt s rid))) ->
    foldM (storeStep results) (seq 0 (length results))
          (decryptedCounts (pollAt s (requestToPollAt s rid))) = Ok stored ->
    transition s (afterCallback s (requestToPollAt s rid) stored).

(** The contract, at address [contract], holds a grant on every counter of
    the poll: what [FHE.requestDecryption] asks of the ciphertexts it is
    handed. *)
Definition holdsCounters (s : State) (contract : address) (pollId : N) : bool :=
  forallb (fun h => isAllowed (acl s) h contract) (encryptedCounts (pollAt s pollId)).

(** The counters of every poll are empty slots as long as nobody has voted
    on it, and afterwards ciphertexts on which the contract, at address
    [contract], holds a grant. *)
Record counters_ok (contract : address) (s : State) : Prop := mk_counters_ok {
  counters_empty : forall pid,
    pid < _pollCount s -> totalVoters (pollAt s pid) = 0 ->
    encryptedCounts (pollAt s pid) = replicate (length (options (pollAt s pid))) Uninit;
  counters_held : forall pid,
    pid < _pollCount s -> 0 < totalVoters (pollAt s pid) ->
    holdsCounters s contract pid = true
}.

(** ** Well-formed storage *)

Record poll_ok (p : Poll) : Prop := mk_poll_ok {
  ok_options : (2 <= length (options p) <= 16)%nat;
  ok_encrypted : length (encryptedCounts p) = length (options p);
  ok_decrypted : length (decryptedCounts p) = length (options p);
  ok_flags : finalized p && decryptionPending p = false
}.

Definition isFinalizationOf (pollId : N) (e : Event) : bool :=
  match e with
  | PollFinalized q _ => q =? pollId
  | _ => false
  end.

(** How many [PollFinalized] events the log holds for a poll. *)
Fixpoint finalizations (pollId : N) (log : list Event) : nat :=
  match log with
  | [] => 0
  | e :: log' =>
      ((if isFinalizationOf pollId e then 1 else 0) + finalizations pollId log')%nat
  end.

Record storage_ok (s : State) : Prop := mk_storage_ok {
  ok_polls : forall pid, pid < _pollCount s -> poll_ok (pollAt s pid);
  ok_log : forall pid,
    finalizations pid (events s)
    = if (pid <? _pollCount s) && finalized (pollAt s pid) then 1%nat else 0%nat
}.

(** ** Lifecycle of a poll *)

Inductive Lifecycle := Open | DecryptionPending | Finalized.

(** The lifecycle state is read off the two flags of the poll. *)
Definition lifecycleState (p : Poll) : Lifecycle :=
  if finalized p then Finalized
  else if decryptionPending p then DecryptionPending
  else Open.

Definition next (l : Lifecycle) : option Lifecycle :=
  match l with
  | Open => Some DecryptionPending
  | DecryptionPending => Some Finalized
  | Finalized => None
  end.

Definition rank (l : Lifecycle) : nat :=
  match l with
  | Open => 0
  | DecryptionPending => 1
  | Finalized => 2
  end.

(** The poll a request id currently stands for: the two guards at the head
    of the callback, read as a function. *)
Definition pendingPollOf (s : State) (rid : N) : option N :=
  let pid := requestToPollAt s rid in
  if (pid <? _pollCount s)
     && decryptionPending (pollAt s pid) && (requestId (pollAt s pid) =? rid)
  then Some pid else None.

(** ** Ballots, tallies and histograms *)

(** A ballot as it reaches the contract: the transaction environment of
    the voter, the encrypted choice and its input proof. *)
Definition Ballot : Type := Env * externalEuint32 * bytes.

Definition voterOf (b : Ballot) : address := msg_sender b.1.1.
Definition choiceOf (b : Ballot) : N := decrypt (Input b.1.2).
Definition voteOf (b : Ballot) : address * N := (voterOf b, choiceOf b).

(** The ballots submitted one after the other; all of them must be
    accepted. *)
Definition castVotes (s : State) (pollId : N) (ballots : list Ballot) : result State :=
  foldM (fun s b => vote s b.1.1 pollId b.1.2 b.2) ballots s.

(** The authority is asked to decrypt and answers honestly. *)
Definition finalize (s : State) (envRequest envCallback : Env)
    (signatures : list bytes) (pollId : N) : result State :=
  s1 ← requestFinalization s envRequest pollId ;
  r ← oracleDelivers s1 envCallback (oracle_requestId envRequest) signatures ;
  Ok r.1.

(** The per-option histogram of a list of choices, written from the
    specification: entry [i] counts the choices equal to [i]. *)
Fixpoint countOf (i : N) (choices : list N) : N :=
  match choices with
  | [] => 0
  | c :: rest => (if c =? i then 1 else 0) + countOf i rest
  end.

Definition histogram (numOptions : nat) (choices : list N) : list N :=
  map (fun i => countOf (N.of_nat i) choices) (seq 0 numOptions).

Definition sum (l : list N) : N := foldr N.add 0 l.

Definition wrap32 (n : N) : N := n mod uint32_modulus.

(** ** A sample deployment

    Concrete calls on which the contract is run: the deployer opens a
    three-option poll, alice, bob and carol vote, finalization is requested
    and answered. *)

Definition sampleEnv (sender : address) (now : N) : Env :=
  {| msg_sender := sender; block_timestamp := now; this := 4096; oracle_requestId := 7 |}.

Definition labels (n : nat) : list string := replicate n "option".

Definition deployer : address := 10.
Definition alice : address := 11.
Definition bob : address := 12.
Definition carol : address := 13.
Definition mallory : address := 66.

Definition ballot (voter : address) (choice : N) : externalEuint32 :=
  {| sealed := choice; issued_to := voter; attestation := [] |}.

Definition frameworkPoll : State :=
  run initialState
    [(sampleEnv deployer 100, CreatePoll "Best Framework" ["React"; "Vue"; "Angular"] 50 1000)].

Definition oracle : address := 77.

Definition votedPoll : State :=
  run frameworkPoll
    [(sampleEnv alice 101, CastVote 0 (ballot alice 0) []);
     (sampleEnv bob 102, CastVote 0 (ballot bob 1) []);
     (sampleEnv carol 103, CastVote 0 (ballot carol 0) [])].

Definition pendingPoll : State :=
  step votedPoll (sampleEnv deployer 104, RequestFinalization 0).

Definition finalizedPoll : State :=
  step pendingPoll (sampleEnv oracle 105, DecryptionCallback 7 (Encoded [2; 1; 0]) []).

Definition sampleTrace : list (Env * Call) :=
  [(sampleEnv deployer 100, CreatePoll "Best Framework" ["React"; "Vue"; "Angular"] 50 1000);
   (sampleEnv alice 101, CastVote 0 (ballot alice 0) []);
   (sampleEnv bob 102, CastVote 0 (ballot bob 1) []);
   (sampleEnv carol 103, CastVote 0 (ballot carol 0) []);
   (sampleEnv deployer 104, RequestFinalization 0);
   (sampleEnv oracle 105, DecryptionCallback 7 (Encoded [2; 1; 0]) [])].

Definition twoCallbacks : list (Env * Call) :=
  [(sampleEnv oracle 105, DecryptionCallback 7 (Encoded [2; 1; 0]) []);
   (sampleEnv oracle 106, DecryptionCallback 7 (Encoded [9; 9; 9]) [])].

Definition twoVotes : State :=
  run frameworkPoll
    [(sampleEnv alice 101, CastVote 0 (ballot alice 0) []);
     (sampleEnv bob 102, CastVote 0 (ballot bob 1) [])].

Definition sampleBallots : list Ballot :=
  [(sampleEnv alice 101, ballot alice 0, []);
   (sampleEnv bob 102, ballot bob 1, []);
   (sampleEnv carol 103, ballot carol 0, [])].

Definition shuffledBallots : list Ballot :=
  [(sampleEnv carol 101, ballot carol 0, []);
   (sampleEnv alice 102, ballot alice 0, []);
   (sampleEnv bob 103, ballot bob 1, [])].

Definition shuffledPoll : State :=
  run frameworkPoll
    [(sampleEnv carol 101, CastVote 0 (ballot carol 0) []);
     (sampleEnv alice 102, CastVote 0 (ballot alice 0) []);
     (sampleEnv bob 103, CastVote 0 (ballot bob 1) [])].

Definition forgedPoll : State :=
  step pendingPoll (sampleEnv mallory 105, DecryptionCallback 7 (Encoded [0; 0; 3]) []).

Definition dave : address := 14.

Definition lateVote : State :=
  step pendingPoll (sampleEnv dave 105, CastVote 0 (ballot dave 2) []).

Definition lateBallot : Ballot := (sampleEnv dave 105, ballot dave 2, []).

Definition lateVoteFinalized : State :=
  match oracleDelivers lateVote (sampleEnv oracle 106) 7 [] with
  | Ok r => r.1
  | _ => lateVote
  end.

(** ** Reading the event log *)

(** The ids of the polls announced by [PollCreated], oldest first. *)
Fixpoint createdIds (log : list Event) : list N :=
  match log with
  | [] => []
  | PollCreated pollId _ _ _ _ _ :: log' => createdIds log' ++ [pollId]
  | _ :: log' => createdIds log'
  end.

(** The accounts announced by [VoteCast] for a poll, newest first. *)
Fixpoint votersOf (pollId : N) (log : list Event) : list address :=
  match log with
  | [] => []
  | VoteCast q voter :: log' =>
      if q =? pollId then voter :: votersOf pollId log' else votersOf pollId log'
  | _ :: log' => votersOf pollId log'
  end.

(** What the log and the voter records have to say about each other. *)
Record voters_ok (s : State) : Prop := mk_voters_ok {
  voters_recorded : forall pid u,
    votedAt s pid u = true <-> u ∈ votersOf pid (events s);
  voters_distinct : forall pid, NoDup (votersOf pid (events s));
  voters_counted : forall pid,
    pid < _pollCount s ->
    totalVoters (pollAt s pid) = N.of_nat (length (votersOf pid (events s)));
  voters_unborn : forall pid,
    _pollCount s <= pid -> votersOf pid (events s) = []
}.

(** The poll a call writes to, if it writes at all. *)
Definition writtenPoll (s : State) (call : Call) : N :=
  match call with
  | CreatePoll _ _ _ _ => _pollCount s
  | CastVote pollId _ _ => pollId
  | RequestFinalization pollId => pollId
  | DecryptionCallback rid _ _ => requestToPollAt s rid
  end.

(** The part of a poll that is set at creation. *)
Definition metadata (p : Poll) : string * list string * N * N * address :=
  (title p, options p, startTime p, endTime p, creator p).

Definition twoPolls : State :=
  run finalizedPoll
    [(sampleEnv bob 200, CreatePoll "Lunch" ["Soup"; "Salad"] 300 400);
     (sampleEnv bob 201, CreatePoll EmptyString ["Soup"; "Salad"] 300 400)].

(** A poll that has not been finalized holds zeros as results, and the
    results of a finalized poll are the ones its [PollFinalized] event
    announced. *)
Record results_ok (s : State) : Prop := mk_results_ok {
  results_unset : forall pid,
    pid < _pollCount s -> finalized (pollAt s pid) = false ->
    decryptedCounts (pollAt s pid) = replicate (length (options (pollAt s pid))) 0;
  results_logged : forall pid,
    pid < _pollCount s -> finalized (pollAt s pid) = true ->
    PollFinalized pid (decryptedCounts (pollAt s pid)) ∈ events s
}.

(** An account takes part in a poll when it created it or voted on it. *)
Definition participant (s : State) (a : address) : Prop :=
  exists pid, pid < _pollCount s /\
              (votedAt s pid a = true \/ creator (pollAt s pid) = a).

(** How many [FinalizationRequested] events the log holds for a poll. *)
Fixpoint requestsOf (pollId : N) (log : list Event) : nat :=
  match log with
  | [] => 0
  | FinalizationRequested q _ :: log' =>
      ((if (q =? pollId)%N then 1 else 0) + requestsOf pollId log')%nat
  | _ :: log' => requestsOf pollId log'
  end.

(** ** The command-line task that creates a poll

    [task:createPoll] of the Hardhat tasks file passes
    [options.split(",").map(opt => opt.trim())] as the options. *)

(** [String.prototype.split(",")]: the pieces between the commas, the empty
    string giving one empty piece. *)
Fixpoint split_comma (s : string) : list string :=
  match s with
  | EmptyString => [EmptyString]
  | String c rest =>
      if Ascii.eqb c ","%char then EmptyString :: split_comma rest
      else match split_comma rest with
           | piece :: pieces => String c piece :: pieces
           | [] => [String c EmptyString]
           end
  end.

Fixpoint commas (s : string) : nat :=
  match s with
  | EmptyString => 0
  | String c rest => ((if Ascii.eqb c ","%char then 1 else 0) + commas rest)%nat
  end.

(** The options the task hands to the contract; [trim] stands for
    [String.prototype.trim]. *)
Definition taskOptions (trim : string -> string) (options : string) : list string :=
  map trim (split_comma options).

(** [Array.prototype.join(",")] *)
Fixpoint join_comma (pieces : list string) : string :=
  match pieces with
  | [] => EmptyString
  | [piece] => piece
  | piece :: rest => piece ++ String ","%char (join_comma rest)
  end.

(** * Properties *)

(** ** The result monad *)

Lemma bind_Ok {A B} (c : result A) (k : A -> result B) (r : B) :
  c ≫= k = Ok r -> exists a, c = Ok a /\ k a = Ok r.
Proof. destruct c as [a| |]; simpl; [eauto | discriminate | discriminate]. Qed.

Lemma require_Ok (cond : bool) (reason : string) (u : unit) :
  require cond reason = Ok u -> cond = true.
Proof. destruct cond; [reflexivity | discriminate]. Qed.

Lemma require_true (reason : string) : require true reason = Ok tt.
Proof. reflexivity. Qed.

Lemma checked_succ_Ok (x y : N) :
  checked_succ x = Ok y -> y = x + 1 /\ x < uint256_max.
Proof.
  unfold checked_succ. destruct (N.ltb_spec x uint256_max); [|discriminate].
  intros [= <-]. auto.
Qed.

Lemma checked_succ_lt (x : N) : x < uint256_max -> checked_succ x = Ok (x + 1).
Proof.
  intros Hlt. unfold checked_succ.
  destruct (N.ltb_spec x uint256_max); [reflexivity | lia].
Qed.

(** Splits a successful run of guarded statements into its guards. *)
Ltac unpack H :=
  repeat match type of H with
  | (_ ≫= _) = Ok _ =>
      let a := fresh "a" in
      let Ha := fresh "Hstep" in
      apply bind_Ok in H as (a & Ha & H);
      try (apply require_Ok in Ha)
  end.

(** ** Ciphertexts *)

Lemma uint32_modulus_pos : uint32_modulus <> 0.
Proof. discriminate. Qed.

Lemma decrypt_range (h : handle) : decrypt h < uint32_modulus.
Proof.
  induction h; simpl.
  - reflexivity.
  - apply N.mod_lt, uint32_modulus_pos.
  - apply N.mod_lt, uint32_modulus_pos.
  - destruct (_ =? _); reflexivity.
  - destruct (_ =? _); assumption.
  - apply N.mod_lt, uint32_modulus_pos.
Qed.

Lemma decrypt_initialized (h : handle) : decrypt (initialized h) = decrypt h.
Proof. destruct h; reflexivity. Qed.

(** The cleartext view of the homomorphic update: add one when the choice
    is this option, add nothing otherwise. *)
Lemma decrypt_bump (v : euint32) (i : nat) (c : euint32) :
  N.of_nat i < uint32_modulus ->
  decrypt (bump v i c)
  = (decrypt c + (if decrypt v =? N.of_nat i then 1 else 0)) mod uint32_modulus.
Proof.
  intros Hi. unfold bump, FHE_add, FHE_select, FHE_eq, FHE_asEuint32.
  cbn [decrypt initialized]. rewrite !decrypt_initialized.
  rewrite (N.mod_small (N.of_nat i)) by exact Hi.
  rewrite (N.mod_small 1), (N.mod_small 0) by reflexivity.
  rewrite (N.mod_small (N.of_nat i)) by exact Hi.
  destruct (decrypt v =? N.of_nat i); reflexivity.
Qed.

(** ** The fan-out loop of [vote] *)

Section VoteLoop.
Variables (voteIndex : euint32) (env : Env) (pollCreator : address).

Let body := voteStep voteIndex env pollCreator.

Lemma voteStep_Ok counts grants i counts' grants' :
  body (counts, grants) i = Ok (counts', grants') ->
  exists c,
    counts !! i = Some c /\
    counts' = <[i := bump voteIndex i c]> counts /\
    grants' = (bump voteIndex i c, pollCreator)
              :: (bump voteIndex i c, msg_sender env)
              :: (bump voteIndex i c, this env) :: grants.
Proof.
  unfold body, voteStep. destruct (counts !! i) as [c|]; [|discriminate].
  intros [= <- <-]. exists c. auto.
Qed.

(** The loop over options [k, k+m) succeeds exactly when those counters
    exist; it rewrites each of them once and touches no other. *)
Lemma voteLoop_Ok m : forall k counts grants counts' grants',
  foldM body (seq k m) (counts, grants) = Ok (counts', grants') ->
  (m = 0%nat \/ (k + m <= length counts)%nat) /\
  length counts' = length counts /\
  (forall j, (k <= j < k + m)%nat ->
             counts' !! j = bump voteIndex j <$> counts !! j) /\
  (forall j, ~ (k <= j < k + m)%nat -> counts' !! j = counts !! j) /\
  (forall j c, (k <= j < k + m)%nat -> counts' !! j = Some c ->
               (c, pollCreator) ∈ grants' /\ (c, msg_sender env) ∈ grants'
               /\ (c, this env) ∈ grants') /\
  grants ⊆ grants'.
Proof.
  induction m as [|m IH]; intros k counts grants counts' grants' H.
  - simpl in H. injection H as <- <-.
    repeat split; auto; try (intros; lia). 
  - simpl in H. apply bind_Ok in H as ([counts1 grants1] & H1 & H).
    apply voteStep_Ok in H1 as (c & Hc & -> & ->).
    apply IH in H as (Hlen & Hl & Hin & Hout & Hacl & Hsub).
    rewrite length_insert in Hlen, Hl.
    pose proof (lookup_lt_Some _ _ _ Hc) as Hk.
    split; [right; destruct Hlen; lia|].
    split; [exact Hl|].
    split; [|split; [|split]].
    + intros j Hj. destruct (decide (j = k)) as [->|Hne].
      * rewrite Hout by lia. rewrite list_lookup_insert_eq by lia.
        rewrite Hc. reflexivity.
      * rewrite Hin by lia. rewrite list_lookup_insert_ne by lia. reflexivity.
    + intros j Hj. rewrite Hout by lia. apply list_lookup_insert_ne. lia.
    + intros j c' Hj Hj'. destruct (decide (j = k)) as [->|Hne].
      * rewrite Hout in Hj' by lia. rewrite list_lookup_insert_eq in Hj' by lia.
        injection Hj' as <-.
        repeat split; apply Hsub; rewrite !elem_of_cons; auto.
      * apply (Hacl j); [lia | exact Hj'].
    + intros x Hx. apply Hsub. rewrite !elem_of_cons. auto.
Qed.

Lemma voteLoop_total m : forall k counts grants,
  (k + m <= length counts)%nat ->
  exists st, foldM body (seq k m) (counts, grants) = Ok st.
Proof.
  induction m as [|m IH]; intros k counts grants Hlen.
  - eexists. reflexivity.
  - simpl. unfold body at 1, voteStep.
    destruct (lookup_lt_is_Some_2 counts k) as [c Hc]; [lia|].
    rewrite Hc. simpl. apply IH. rewrite length_insert. lia.
Qed.
End VoteLoop.

(** ** Reading storage after a write *)

Lemma pollAt_insert_eq polls n hv r2p a dr ev pid p :
  pollAt (mkState (<[pid := p]> polls) n hv r2p a dr ev) pid = p.
Proof. unfold pollAt. simpl. rewrite lookup_insert_eq. reflexivity. Qed.

Lemma pollAt_insert_ne s n hv r2p a dr ev pid q p :
  pid <> q ->
  pollAt (mkState (<[pid := p]> (_polls s)) n hv r2p a dr ev) q = pollAt s q.
Proof. intros Hne. unfold pollAt. simpl. rewrite lookup_insert_ne by exact Hne. reflexivity. Qed.

(** ** What an accepted vote did *)

Lemma vote_Ok_shape s env pid e proof s' :
  vote s env pid e proof = Ok s' ->
  exists counts' grants',
    pid < _pollCount s /\
    startTime (pollAt s pid) <= block_timestamp env /\
    block_timestamp env <= endTime (pollAt s pid) /\
    finalized (pollAt s pid) = false /\
    votedAt s pid (msg_sender env) = false /\
    verifyInput e proof (msg_sender env) = true /\
    totalVoters (pollAt s pid) < uint256_max /\
    foldM (voteStep (Input e) env (creator (pollAt s pid)))
          (seq 0 (length (options (pollAt s pid))))
          (encryptedCounts (pollAt s pid), acl s) = Ok (counts', grants') /\
    s' = afterVote s env pid counts' grants'.
Proof.
  intros H. unfold vote, pollExists in H. unpack H.
  unfold FHE_fromExternal in Hstep4. unpack Hstep4. injection Hstep4 as <-.
  apply checked_succ_Ok in Hstep6 as [-> Hmax].
  destruct a5 as [counts' grants']. exists counts', grants'.
  injection H as <-.
  apply N.ltb_lt in Hstep. apply N.leb_le in Hstep0, Hstep1.
  apply negb_true_iff in Hstep2, Hstep3.
  repeat split; auto.
Qed.

(** Conversely: when every guard holds and the poll has a counter for each
    option, the vote is accepted. *)
Lemma vote_accepts s env pid e proof :
  pid < _pollCount s ->
  startTime (pollAt s pid) <= block_timestamp env ->
  block_timestamp env <= endTime (pollAt s pid) ->
  finalized (pollAt s pid) = false ->
  votedAt s pid (msg_sender env) = false ->
  verifyInput e proof (msg_sender env) = true ->
  (length (options (pollAt s pid)) <= length (encryptedCounts (pollAt s pid)))%nat ->
  totalVoters (pollAt s pid) < uint256_max ->
  exists s', vote s env pid e proof = Ok s'.
Proof.
  intros Hex Hst Het Hfin Hv Hproof Hlen Hmax.
  destruct (voteLoop_total (Input e) env (creator (pollAt s pid))
              (length (options (pollAt s pid))) 0
              (encryptedCounts (pollAt s pid)) (acl s)) as [st Hst']; [lia|].
  unfold vote, pollExists, FHE_fromExternal.
  apply N.ltb_lt in Hex. apply N.leb_le in Hst, Het.
  rewrite Hex, Hst, Het, Hfin, Hv, Hproof. simpl.
  rewrite Hst'. simpl. rewrite checked_succ_lt by exact Hmax. simpl.
  eexists. reflexivity.
Qed.

(** ** The store loop of [decryptionCallback] *)

Lemma storeLoop_Ok results m : forall k stored stored',
  foldM (storeStep results) (seq k m) stored = Ok stored' ->
  (m = 0%nat \/ (k + m <= length stored)%nat) /\
  length stored' = length stored /\
  (forall j, (k <= j < k + m)%nat -> stored' !! j = results !! j) /\
  (forall j, ~ (k <= j < k + m)%nat -> stored' !! j = stored !! j).
Proof.
  induction m as [|m IH]; intros k stored stored' H.
  - simpl in H. injection H as <-. repeat split; auto; intros; lia.
  - simpl in H. apply bind_Ok in H as (stored1 & H1 & H).
    unfold storeStep in H1.
    destruct (results !! k) as [r|] eqn:Hr; [|discriminate].
    destruct (Nat.ltb_spec k (length stored)) as [Hk|Hk]; [|discriminate].
    injection H1 as <-.
    apply IH in H as (Hlen & Hl & Hin & Hout).
    rewrite length_insert in Hlen, Hl.
    split; [right; destruct Hlen; lia|].
    split; [exact Hl|]. split.
    + intros j Hj. destruct (decide (j = k)) as [->|Hne].
      * rewrite Hout by lia. rewrite list_lookup_insert_eq by lia. auto.
      * apply Hin. lia.
    + intros j Hj. rewrite Hout by lia. apply list_lookup_insert_ne. lia.
Qed.

Lemma storeLoop_total results m : forall k stored,
  (k + m <= length results)%nat -> (k + m <= length stored)%nat ->
  exists stored', foldM (storeStep results) (seq k m) stored = Ok stored'.
Proof.
  induction m as [|m IH]; intros k stored Hr Hs.
  - eexists. reflexivity.
  - destruct (lookup_lt_is_Some_2 results k) as [r Hrk]; [lia|].
    assert (Hstep : storeStep results stored k = Ok (<[k := r]> stored)).
    { unfold storeStep. rewrite Hrk.
      destruct (Nat.ltb_spec k (length stored)); [reflexivity | lia]. }
    cbn [foldM seq]. rewrite Hstep. simpl.
    apply IH; [lia | rewrite length_insert; lia].
Qed.

(** Storing a result vector as long as the array overwrites all of it. *)
Lemma storeLoop_all results stored stored' :
  length stored = length results ->
  foldM (storeStep results) (seq 0 (length results)) stored = Ok stored' ->
  stored' = results.
Proof.
  intros Hlen H. apply storeLoop_Ok in H as (_ & Hl & Hin & Hout).
  apply list_eq. intros j.
  destruct (decide (j < length results)%nat) as [Hj|Hj].
  - apply Hin. lia.
  - rewrite Hout by lia.
    rewrite !lookup_ge_None_2 by lia. reflexivity.
Qed.

(** ** What the other calls did *)

Lemma createPoll_Ok_shape s env t os st et s' pid :
  createPoll s env t os st et = Ok (s', pid) ->
  t <> EmptyString /\ (2 <= length os <= 16)%nat /\ st < et /\ block_timestamp env < et /\
  _pollCount s < uint256_max /\
  pid = _pollCount s /\ s' = afterCreate s env t os st et.
Proof.
  intros H. unfold createPoll in H. unpack H.
  apply checked_succ_Ok in Hstep3 as [-> Hmax]. injection H as <- <-.
  apply andb_true_iff in Hstep0 as [H2 H16].
  apply Nat.leb_le in H2, H16. apply Nat.ltb_lt in Hstep.
  apply N.ltb_lt in Hstep1, Hstep2.
  repeat split; auto. intros ->. simpl in Hstep. lia.
Qed.

Lemma createPoll_accepts s env t os st et :
  t <> EmptyString -> (2 <= length os <= 16)%nat -> st < et -> block_timestamp env < et ->
  _pollCount s < uint256_max ->
  createPoll s env t os st et = Ok (afterCreate s env t os st et, _pollCount s).
Proof.
  intros Ht [H2 H16] Hse Hfut Hmax. unfold createPoll.
  assert (Hlen : (0 <? String.length t)%nat = true).
  { apply Nat.ltb_lt. destruct t; [congruence | simpl; lia]. }
  apply Nat.leb_le in H2, H16. apply N.ltb_lt in Hse, Hfut.
  rewrite Hlen, H2, H16, Hse, Hfut. simpl.
  rewrite checked_succ_lt by exact Hmax. reflexivity.
Qed.

Lemma map_toBytes32 (l : list handle) : map FHE_toBytes32 l = l.
Proof. induction l as [|h l IH]; simpl; [reflexivity | by rewrite IH]. Qed.

Lemma FHE_requestDecryption_Ok grants env cts rid :
  FHE_requestDecryption grants env cts = Ok rid ->
  forallb (fun h => isAllowed grants h (this env)) cts = true /\
  rid = oracle_requestId env.
Proof.
  unfold FHE_requestDecryption. intros H. unpack H. injection H as <-. auto.
Qed.

Lemma requestFinalization_Ok_shape s env pid s' :
  requestFinalization s env pid = Ok s' ->
  pid < _pollCount s /\
  finalized (pollAt s pid) = false /\
  decryptionPending (pollAt s pid) = false /\
  s' = afterRequest s env pid.
Proof.
  intros H. unfold requestFinalization, pollExists in H. unpack H.
  apply FHE_requestDecryption_Ok in Hstep2 as [_ ->].
  injection H as <-. apply N.ltb_lt in Hstep.
  apply negb_true_iff in Hstep0, Hstep1. auto.
Qed.

Lemma requestFinalization_Ok_granted s env pid s' :
  requestFinalization s env pid = Ok s' -> holdsCounters s (this env) pid = true.
Proof.
  intros H. unfold requestFinalization, pollExists in H. unpack H.
  apply FHE_requestDecryption_Ok in Hstep2 as [Hall _].
  by rewrite map_toBytes32 in Hall.
Qed.

Lemma decryptionCallback_Ok_shape s env rid cts sigs s' b :
  decryptionCallback s env rid cts sigs = Ok (s', b) ->
  let pid := requestToPollAt s rid in
  exists results stored,
    pid < _pollCount s /\
    decryptionPending (pollAt s pid) = true /\
    requestId (pollAt s pid) = rid /\
    cts = Encoded results /\
    length results = length (encryptedCounts (pollAt s pid)) /\
    foldM (storeStep results) (seq 0 (length results))
          (decryptedCounts (pollAt s pid)) = Ok stored /\
    b = true /\ s' = afterCallback s pid stored.
Proof.
  intros H pid. unfold decryptionCallback in H. fold pid in H. unpack H.
  injection H as <- <-.
  destruct cts as [results|]; [|discriminate]. injection Hstep1 as <-.
  exists results, a3.
  apply N.ltb_lt in Hstep. apply andb_true_iff in Hstep0 as [Hp Hr].
  apply N.eqb_eq in Hr. apply Nat.eqb_eq in Hstep2.
  repeat split; auto.
Qed.

(** ** Accepted calls take transitions *)

Lemma execute_transition s env call s' :
  execute s env call = Ok s' -> transition s s'.
Proof.
  destruct call as [t os st et | pid e proof | pid | rid cts sigs]; simpl; intros H.
  - apply bind_Ok in H as ([s1 pid] & H1 & [= <-]).
    apply createPoll_Ok_shape in H1 as (_ & Hlen & _ & _ & Hmax & _ & ->).
    simpl. by constructor.
  - apply vote_Ok_shape in H
      as (counts' & grants' & Hex & _ & _ & Hfin & Hv & _ & _ & Hloop & ->).
    by econstructor.
  - apply requestFinalization_Ok_shape in H as (Hex & Hfin & Hpend & ->).
    by constructor.
  - apply bind_Ok in H as ([s1 b] & H1 & [= <-]).
    apply decryptionCallback_Ok_shape in H1
      as (results & stored & Hex & Hpend & _ & _ & Hlen & Hloop & _ & ->).
    simpl. by econstructor.
Qed.

(** A transaction either takes a transition or leaves storage alone. *)
Lemma step_cases s tx : step s tx = s \/ transition s (step s tx).
Proof.
  unfold step. destruct (execute s tx.1 tx.2) eqn:H; auto.
  right. by eapply execute_transition.
Qed.

(** Reading a poll after each kind of transition. *)

Lemma pollAt_afterCreate s env t os st et q :
  pollAt (afterCreate s env t os st et) q
  = if decide (q = _pollCount s)
    then mkPoll t os st et (msg_sender env) false false 0
                (replicate (length os) Uninit) (replicate (length os) 0) 0
    else pollAt s q.
Proof.
  unfold afterCreate. case_decide as Hq.
  - subst q. apply pollAt_insert_eq.
  - apply pollAt_insert_ne. congruence.
Qed.

Lemma pollAt_afterVote s env pid counts' grants' q :
  pollAt (afterVote s env pid counts' grants') q
  = if decide (q = pid)
    then mkPoll (title (pollAt s pid)) (options (pollAt s pid))
                (startTime (pollAt s pid)) (endTime (pollAt s pid))
                (creator (pollAt s pid)) (finalized (pollAt s pid))
                (decryptionPending (pollAt s pid)) (requestId (pollAt s pid))
                counts' (decryptedCounts (pollAt s pid))
                (totalVoters (pollAt s pid) + 1)
    else pollAt s q.
Proof.
  unfold afterVote. case_decide as Hq.
  - subst q. apply pollAt_insert_eq.
  - apply pollAt_insert_ne. congruence.
Qed.

Lemma pollAt_afterRequest s env pid q :
  pollAt (afterRequest s env pid) q
  = if decide (q = pid)
    then mkPoll (title (pollAt s pid)) (options (pollAt s pid))
                (startTime (pollAt s pid)) (endTime (pollAt s pid))
                (creator (pollAt s pid)) (finalized (pollAt s pid))
                true (oracle_requestId env)
                (encryptedCounts (pollAt s pid)) (decryptedCounts (pollAt s pid))
                (totalVoters (pollAt s pid))
    else pollAt s q.
Proof.
  unfold afterRequest. case_decide as Hq.
  - subst q. apply pollAt_insert_eq.
  - apply pollAt_insert_ne. congruence.
Qed.

Lemma pollAt_afterCallback s pid stored q :
  pollAt (afterCallback s pid stored) q
  = if decide (q = pid)
    then mkPoll (title (pollAt s pid)) (options (pollAt s pid))
                (startTime (pollAt s pid)) (endTime (pollAt s pid))
                (creator (pollAt s pid)) true false (requestId (pollAt s pid))
                (encryptedCounts (pollAt s pid)) stored
                (totalVoters (pollAt s pid))
    else pollAt s q.
Proof.
  unfold afterCallback. case_decide as Hq.
  - subst q. apply pollAt_insert_eq.
  - apply pollAt_insert_ne. congruence.
Qed.

(** ** Storage invariant *)

Lemma initialState_ok : storage_ok initialState.
Proof. split; [intros pid H; simpl in H; lia | intros [|p]; reflexivity]. Qed.

Lemma transition_ok s s' : storage_ok s -> transition s s' -> storage_ok s'.
Proof.
  intros [Hpolls Hlog] Ht.
  destruct Ht as [env t os st et Hlen Hmax
                 | env pid e counts' grants' Hex Hfin Hv Hloop
                 | env pid Hex Hfin Hpend
                 | rid results stored Hex Hpend Hlen Hloop].
  - split.
    + intros q Hq. rewrite pollAt_afterCreate. case_decide as Hd.
      * split; simpl; rewrite ?length_replicate; auto.
      * apply Hpolls. simpl in Hq. lia.
    + intros q. rewrite pollAt_afterCreate. simpl. rewrite Hlog.
      case_decide as Hd.
      * subst q. rewrite N.ltb_irrefl. simpl.
        destruct (_ <? _); reflexivity.
      * destruct (N.ltb_spec q (_pollCount s)), (N.ltb_spec q (_pollCount s + 1));
          try lia; reflexivity.
  - apply voteLoop_Ok in Hloop as (_ & Hl & _).
    split.
    + intros q Hq. rewrite pollAt_afterVote. case_decide as Hd.
      * subst q. destruct (Hpolls pid Hex) as [Ho He Hdc Hf].
        split; simpl; auto. congruence.
      * apply Hpolls. exact Hq.
    + intros q. rewrite pollAt_afterVote. simpl. rewrite Hlog.
      case_decide as Hd; [subst q|]; reflexivity.
  - split.
    + intros q Hq. rewrite pollAt_afterRequest. case_decide as Hd.
      * subst q. destruct (Hpolls pid Hex) as [Ho He Hdc Hf].
        split; simpl; auto. rewrite Hfin. reflexivity.
      * apply Hpolls. exact Hq.
    + intros q. rewrite pollAt_afterRequest. simpl. rewrite Hlog.
      case_decide as Hd; [subst q|]; reflexivity.
  - apply storeLoop_Ok in Hloop as (_ & Hl & _).
    destruct (Hpolls _ Hex) as [Ho He Hdc Hf].
    rewrite Hpend, andb_true_r in Hf.
    split.
    + intros q Hq. rewrite pollAt_afterCallback. case_decide as Hd.
      * split; simpl; auto. congruence.
      * apply Hpolls. exact Hq.
    + intros q. rewrite pollAt_afterCallback. simpl. rewrite Hlog.
      case_decide as Hd.
      * subst q. rewrite N.eqb_refl.
        apply N.ltb_lt in Hex. rewrite Hex, Hf. reflexivity.
      * destruct (N.eqb_spec (requestToPollAt s rid) q); [congruence | reflexivity].
Qed.

Lemma step_ok s tx : storage_ok s -> storage_ok (step s tx).
Proof.
  intros Hok. destruct (step_cases s tx) as [-> | Ht]; [exact Hok|].
  by eapply transition_ok.
Qed.

Lemma run_ok txs : forall s, storage_ok s -> storage_ok (run s txs).
Proof.
  induction txs as [|tx txs IH]; intros s Hok; [exact Hok|].
  simpl. apply IH, step_ok, Hok.
Qed.

Lemma reachable_ok s : reachable s -> storage_ok s.
Proof. intros [txs <-]. apply run_ok, initialState_ok. Qed.

(** ** Poll creation *)

Lemma nonempty_title_length (t : string) : t <> EmptyString -> (0 <? String.length t)%nat = true.
Proof. intros Ht. apply Nat.ltb_lt. destruct t; [congruence | simpl; lia]. Qed.

(** C6. [createPoll] rejects an empty title with InvalidTitle, an option
    count outside [2,16] with InvalidOptionCount (so 1 and 17 options are
    rejected), and a window with [endTime <= startTime] or [endTime] not
    after the block time with InvalidTimeRange, the guards being tried in
    this order; a rejected call leaves storage as it was and allocates no
    poll id; with 2 or with 16 options and otherwise valid arguments the
    poll is created under the next id. *)
Theorem createPoll_validation (s : State) (env : Env)
    (t : string) (os : list string) (st et : N) :
  (t = EmptyString -> fails_with (createPoll s env t os st et) InvalidTitle) /\
  (t <> EmptyString -> (length os < 2 \/ 16 < length os)%nat ->
     fails_with (createPoll s env t os st et) InvalidOptionCount) /\
  (t <> EmptyString -> (2 <= length os <= 16)%nat -> et <= st \/ et <= block_timestamp env ->
     fails_with (createPoll s env t os st et) InvalidTimeRange) /\
  (forall e, fails_with (createPoll s env t os st et) e ->
     step s (env, CreatePoll t os st et) = s /\
     getPollCount (step s (env, CreatePoll t os st et)) = getPollCount s) /\
  (t <> EmptyString -> length os = 2%nat \/ length os = 16%nat ->
   st < et -> block_timestamp env < et -> _pollCount s < uint256_max ->
     exists s', createPoll s env t os st et = Ok (s', _pollCount s) /\
                getPollCount s' = _pollCount s + 1 /\
                step s (env, CreatePoll t os st et) = s').
Proof.
  split; [|split; [|split; [|split]]].
  - intros ->. exists "Title cannot be empty". split; reflexivity.
  - intros Ht Hlen. exists "Must have 2-16 options". split; [|reflexivity].
    assert (Hb : (2 <=? length os)%nat && (length os <=? 16)%nat = false).
    { destruct (Nat.leb_spec 2 (length os)), (Nat.leb_spec (length os) 16);
        try lia; reflexivity. }
    unfold createPoll. rewrite (nonempty_title_length t Ht), Hb. reflexivity.
  - intros Ht [H2 H16] Htime. unfold createPoll.
    apply Nat.leb_le in H2, H16.
    rewrite (nonempty_title_length t Ht), H2, H16.
    destruct (N.ltb_spec st et) as [Hse|Hse].
    + destruct (N.ltb_spec (block_timestamp env) et) as [Hfut|Hfut]; [lia|].
      exists "End time must be in the future". split; reflexivity.
    + exists "End time must be after start time". split; reflexivity.
  - intros e (reason & Hrev & _). unfold step. simpl. rewrite Hrev. simpl. auto.
  - intros Ht Hlen Hse Hfut Hmax. exists (afterCreate s env t os st et).
    assert (H : createPoll s env t os st et
                = Ok (afterCreate s env t os st et, _pollCount s)).
    { apply createPoll_accepts; auto. lia. }
    split; [exact H|]. split; [reflexivity|].
    unfold step. simpl. rewrite H. reflexivity.
Qed.

Lemma createPoll_validation_witness :
  fails_with (createPoll initialState (sampleEnv 10 100) EmptyString (labels 2) 50 1000)
             InvalidTitle /\
  fails_with (createPoll initialState (sampleEnv 10 100) "Poll" (labels 1) 50 1000)
             InvalidOptionCount /\
  fails_with (createPoll initialState (sampleEnv 10 100) "Poll" (labels 17) 50 1000)
             InvalidOptionCount /\
  fails_with (createPoll initialState (sampleEnv 10 100) "Poll" (labels 2) 50 50)
             InvalidTimeRange /\
  fails_with (createPoll initialState (sampleEnv 10 100) "Poll" (labels 2) 50 100)
             InvalidTimeRange /\
  (exists s', createPoll initialState (sampleEnv 10 100) "Poll" (labels 2) 50 1000
              = Ok (s', 0) /\ getPollCount s' = 0 + 1 /\
              step initialState (sampleEnv 10 100, CreatePoll "Poll" (labels 2) 50 1000)
              = s') /\
  (exists s', createPoll initialState (sampleEnv 10 100) "Poll" (labels 16) 50 1000
              = Ok (s', 0) /\ getPollCount s' = 0 + 1 /\
              step initialState (sampleEnv 10 100, CreatePoll "Poll" (labels 16) 50 1000)
              = s').
Proof.
  repeat split.
  - apply (createPoll_validation initialState (sampleEnv 10 100) EmptyString (labels 2) 50 1000).
    reflexivity.
  - apply (createPoll_validation initialState (sampleEnv 10 100) "Poll" (labels 1) 50 1000).
    + discriminate.
    + left. simpl. lia.
  - apply (createPoll_validation initialState (sampleEnv 10 100) "Poll" (labels 17) 50 1000).
    + discriminate.
    + right. simpl. lia.
  - apply (createPoll_validation initialState (sampleEnv 10 100) "Poll" (labels 2) 50 50).
    + discriminate.
    + simpl. lia.
    + left. lia.
  - apply (createPoll_validation initialState (sampleEnv 10 100) "Poll" (labels 2) 50 100).
    + discriminate.
    + simpl. lia.
    + right. simpl. lia.
  - apply (createPoll_validation initialState (sampleEnv 10 100) "Poll" (labels 2) 50 1000).
    + discriminate.
    + left. reflexivity.
    + reflexivity.
    + reflexivity.
    + reflexivity.
  - apply (createPoll_validation initialState (sampleEnv 10 100) "Poll" (labels 16) 50 1000).
    + discriminate.
    + right. reflexivity.
    + reflexivity.
    + reflexivity.
    + reflexivity.
Defined.

(** ** Facts that only grow *)

Lemma votedAt_afterVote s env pid counts' grants' q u :
  votedAt (afterVote s env pid counts' grants') q u
  = if decide ((pid, msg_sender env) = (q, u)) then true else votedAt s q u.
Proof.
  unfold votedAt, afterVote. simpl. rewrite lookup_insert.
  case_decide; reflexivity.
Qed.

Lemma transition_pollCount s s' : transition s s' -> _pollCount s <= _pollCount s'.
Proof. intros []; simpl; lia. Qed.

Lemma transition_voted s s' pid u :
  transition s s' -> votedAt s pid u = true -> votedAt s' pid u = true.
Proof.
  intros [] Hv; try exact Hv.
  rewrite votedAt_afterVote. case_decide; [reflexivity | exact Hv].
Qed.

Lemma transition_acl s s' : transition s s' -> acl s ⊆ acl s'.
Proof.
  intros [env t os st et _ _ | env pid e counts' grants' _ _ _ Hloop | |];
    simpl; try reflexivity.
  by apply voteLoop_Ok in Hloop as (_ & _ & _ & _ & _ & Hsub).
Qed.

Lemma run_cons s tx txs : run s (tx :: txs) = run (step s tx) txs.
Proof. reflexivity. Qed.

Lemma run_app s txs1 txs2 : run s (txs1 ++ txs2) = run (run s txs1) txs2.
Proof. apply fold_left_app. Qed.

(** A property that every transition preserves holds along every trace. *)
Lemma run_preserves (P : State -> Prop) :
  (forall s s', transition s s' -> P s -> P s') ->
  forall txs s, P s -> P (run s txs).
Proof.
  intros Hpres txs. induction txs as [|tx txs IH]; intros s HP; [exact HP|].
  rewrite run_cons. apply IH.
  destruct (step_cases s tx) as [-> | Ht]; [exact HP | by eapply Hpres].
Qed.

Lemma run_pollCount txs s : _pollCount s <= _pollCount (run s txs).
Proof.
  apply (run_preserves (fun s' => _pollCount s <= _pollCount s')); [|lia].
  intros s1 s2 Ht Hle. apply transition_pollCount in Ht. lia.
Qed.

Lemma run_voted txs s pid u :
  votedAt s pid u = true -> votedAt (run s txs) pid u = true.
Proof.
  apply (run_preserves (fun s' => votedAt s' pid u = true)).
  intros s1 s2 Ht. by apply transition_voted.
Qed.

Lemma run_acl txs s : acl s ⊆ acl (run s txs).
Proof.
  apply (run_preserves (fun s' => acl s ⊆ acl s')); [|reflexivity].
  intros s1 s2 Ht Hsub. etrans; [exact Hsub | by apply transition_acl].
Qed.

Lemma reachable_run s txs : reachable s -> reachable (run s txs).
Proof. intros [txs0 <-]. exists (txs0 ++ txs)%list. apply run_app. Qed.

(** ** Vote ingestion *)

Lemma small_index (p : Poll) (i : nat) :
  poll_ok p -> (i < length (options p))%nat -> N.of_nat i < uint32_modulus.
Proof.
  intros [[_ H16] _ _ _] Hi.
  apply N.le_lt_trans with (m := 16); [lia | reflexivity].
Qed.

(** A voter who is recorded as having voted is turned away whatever the
    ballot, and with "Already voted" when the earlier guards let the call
    through. *)
Lemma vote_again_rejected s env pid e proof :
  votedAt s pid (msg_sender env) = true ->
  (forall s', vote s env pid e proof <> Ok s') /\
  step s (env, CastVote pid e proof) = s /\
  (pid < _pollCount s ->
   startTime (pollAt s pid) <= block_timestamp env <= endTime (pollAt s pid) ->
   finalized (pollAt s pid) = false ->
   vote s env pid e proof = Revert "Already voted").
Proof.
  intros Hv.
  assert (Hno : forall s', vote s env pid e proof <> Ok s').
  { intros s' H. apply vote_Ok_shape in H as (? & ? & _ & _ & _ & _ & Hv' & _).
    congruence. }
  split; [exact Hno|]. split.
  - unfold step. simpl. destruct (vote s env pid e proof) eqn:H; auto.
    by destruct (Hno a).
  - intros Hex [Hst Het] Hfin. unfold vote, pollExists.
    apply N.ltb_lt in Hex. apply N.leb_le in Hst, Het.
    rewrite Hex, Hst, Het, Hfin, Hv. reflexivity.
Qed.

(** C4. On every accepted vote, the counter of every option [i] is replaced
    by its homomorphic sum with [select(choice == i, 1, 0)], whose cleartext
    is the old count plus one exactly when the choice decrypts to [i]; so a
    choice outside the option range leaves every cleartext count as it was,
    while [totalVoters] still grows by one, the voter is marked as having
    voted, and no further ballot of that voter is accepted. *)
Theorem vote_fans_out (s : State) (env : Env) (pid : N)
    (e : externalEuint32) (proof : bytes) (s' : State) :
  reachable s ->
  vote s env pid e proof = Ok s' ->
  let poll := pollAt s pid in
  let poll' := pollAt s' pid in
  let choice := decrypt (Input e) in
  options poll' = options poll /\
  length (encryptedCounts poll') = length (options poll) /\
  (forall i, (i < length (options poll))%nat ->
     exists c,
       encryptedCounts poll !! i = Some c /\
       encryptedCounts poll' !! i
       = Some (FHE_add c
                 (FHE_select (FHE_eq (Input e) (FHE_asEuint32 (N.of_nat i)))
                             (FHE_asEuint32 1) (FHE_asEuint32 0))) /\
       (decrypt <$> encryptedCounts poll' !! i)
       = Some ((decrypt c + (if choice =? N.of_nat i then 1 else 0))
               mod uint32_modulus)) /\
  (N.of_nat (length (options poll)) <= choice ->
     decrypt <$> encryptedCounts poll' = decrypt <$> encryptedCounts poll) /\
  totalVoters poll' = totalVoters poll + 1 /\
  votedAt s' pid (msg_sender env) = true /\
  (forall env2 e2 proof2 s2,
     msg_sender env2 = msg_sender env -> vote s' env2 pid e2 proof2 <> Ok s2).
Proof.
  intros Hreach H poll poll' choice.
  apply vote_Ok_shape in H
    as (counts' & grants' & Hex & _ & _ & _ & _ & _ & _ & Hloop & ->).
  destruct (reachable_ok s Hreach) as [Hpolls _].
  pose proof (Hpolls pid Hex) as Hok. destruct (Hok) as [Hopts Henc _ _].
  apply voteLoop_Ok in Hloop as (_ & Hlen & Hin & _).
  subst poll'. rewrite pollAt_afterVote. rewrite decide_True by reflexivity.
  cbn [options encryptedCounts totalVoters]. fold poll in Hlen, Hin, Henc, Hok |- *.
  assert (Hnew : forall i c, (i < length (options poll))%nat ->
            encryptedCounts poll !! i = Some c ->
            counts' !! i
            = Some (FHE_add c
                      (FHE_select (FHE_eq (Input e) (FHE_asEuint32 (N.of_nat i)))
                                  (FHE_asEuint32 1) (FHE_asEuint32 0))) /\
            decrypt <$> counts' !! i
            = Some ((decrypt c + (if choice =? N.of_nat i then 1 else 0))
                    mod uint32_modulus)).
  { intros i c Hi Hc. pose proof (small_index poll i Hok Hi) as Hsmall.
    assert (Hci : counts' !! i = Some (bump (Input e) i c)).
    { rewrite Hin by lia. rewrite Hc. reflexivity. }
    rewrite !Hci.
    change (decrypt <$> Some (bump (Input e) i c))
      with (Some (decrypt (bump (Input e) i c))).
    rewrite decrypt_bump by exact Hsmall.
    unfold bump. rewrite (N.mod_small _ _ Hsmall). auto. }
  split; [reflexivity|]. split; [congruence|]. split; [|split; [|split; [|split]]].
  - intros i Hi.
    destruct (lookup_lt_is_Some_2 (encryptedCounts poll) i) as [c Hc]; [lia|].
    exists c. destruct (Hnew i c Hi Hc). auto.
  - intros Hout. apply list_eq. intros i. rewrite !list_lookup_fmap.
    destruct (encryptedCounts poll !! i) as [c|] eqn:Hc.
    + pose proof (lookup_lt_Some _ _ _ Hc) as Hi. rewrite Henc in Hi.
      destruct (Hnew i c Hi Hc) as [_ ->]. simpl. f_equal.
      destruct (N.eqb_spec choice (N.of_nat i)) as [Heq|_]; [lia|].
      rewrite N.add_0_r. apply N.mod_small, decrypt_range.
    + apply lookup_ge_None in Hc. rewrite lookup_ge_None_2 by lia. reflexivity.
  - reflexivity.
  - rewrite votedAt_afterVote. by rewrite decide_True.
  - intros env2 e2 proof2 s2 Hsender.
    apply vote_again_rejected. rewrite Hsender, votedAt_afterVote.
    by rewrite decide_True.
Qed.

Lemma frameworkPoll_reachable : reachable frameworkPoll.
Proof. eexists. reflexivity. Qed.

Lemma vote_fans_out_witness :
  reachable frameworkPoll /\
  vote frameworkPoll (sampleEnv alice 101) 0 (ballot alice 7) []
  = Ok (step frameworkPoll (sampleEnv alice 101, CastVote 0 (ballot alice 7) [])) /\
  (decrypt <$> encryptedCounts
     (pollAt (step frameworkPoll (sampleEnv alice 101, CastVote 0 (ballot alice 7) [])) 0)
   = decrypt <$> encryptedCounts (pollAt frameworkPoll 0)) /\
  totalVoters
    (pollAt (step frameworkPoll (sampleEnv alice 101, CastVote 0 (ballot alice 7) [])) 0)
  = totalVoters (pollAt frameworkPoll 0) + 1.
Proof.
  assert (Hvote : vote frameworkPoll (sampleEnv alice 101) 0 (ballot alice 7) []
    = Ok (step frameworkPoll (sampleEnv alice 101, CastVote 0 (ballot alice 7) []))).
  { reflexivity. }
  split; [exact frameworkPoll_reachable|]. split; [exact Hvote|].
  destruct (vote_fans_out frameworkPoll (sampleEnv alice 101) 0 (ballot alice 7) [] _
              frameworkPoll_reachable Hvote)
    as (_ & _ & _ & Hout & Htotal & _).
  split; [|exact Htotal].
  apply Hout. vm_compute. discriminate.
Defined.

Lemma pollExists_Ok s pid : pid < _pollCount s -> pollExists s pid = Ok tt.
Proof. intros H. unfold pollExists. apply N.ltb_lt in H. rewrite H. reflexivity. Qed.

(** C5. In an existing poll that is inside its voting window and not
    finalized, the first ballot of a voter with a valid input proof is
    accepted, [getTotalVoters] grows by exactly one and [hasUserVoted]
    becomes true; whatever happens next, every later ballot of that voter
    on the poll is rejected and leaves storage (so [totalVoters]) as it
    was, with AlreadyVoted whenever the window and finalization guards,
    which the contract tries first, let the call through. *)
Theorem one_vote_per_voter (s : State) (env : Env) (pid : N)
    (e : externalEuint32) (proof : bytes) :
  reachable s ->
  pid < _pollCount s ->
  startTime (pollAt s pid) <= block_timestamp env <= endTime (pollAt s pid) ->
  finalized (pollAt s pid) = false ->
  votedAt s pid (msg_sender env) = false ->
  verifyInput e proof (msg_sender env) = true ->
  totalVoters (pollAt s pid) < uint256_max ->
  exists s',
    vote s env pid e proof = Ok s' /\
    getTotalVoters s pid = Ok (totalVoters (pollAt s pid)) /\
    getTotalVoters s' pid = Ok (totalVoters (pollAt s pid) + 1) /\
    hasUserVoted s' pid (msg_sender env) = Ok true /\
    forall txs env2 e2 proof2,
      msg_sender env2 = msg_sender env ->
      let s2 := run s' txs in
      (forall s3, vote s2 env2 pid e2 proof2 <> Ok s3) /\
      step s2 (env2, CastVote pid e2 proof2) = s2 /\
      getTotalVoters (step s2 (env2, CastVote pid e2 proof2)) pid
      = getTotalVoters s2 pid /\
      (startTime (pollAt s2 pid) <= block_timestamp env2 <= endTime (pollAt s2 pid) ->
       finalized (pollAt s2 pid) = false ->
       fails_with (vote s2 env2 pid e2 proof2) AlreadyVoted).
Proof.
  intros Hreach Hex [Hst Het] Hfin Hv Hproof Hmax.
  destruct (reachable_ok s Hreach) as [Hpolls _].
  destruct (Hpolls pid Hex) as [_ Henc _ _].
  destruct (vote_accepts s env pid e proof) as [s' Hvote]; auto; [lia|].
  exists s'. split; [exact Hvote|].
  apply vote_Ok_shape in Hvote as (counts' & grants' & _ & _ & _ & _ & _ & _ & _ & _ & ->).
  assert (Hvoted : votedAt (afterVote s env pid counts' grants') pid (msg_sender env) = true).
  { rewrite votedAt_afterVote. by rewrite decide_True. }
  split; [|split; [|split]].
  - unfold getTotalVoters. rewrite pollExists_Ok by exact Hex. reflexivity.
  - unfold getTotalVoters. rewrite pollExists_Ok by exact Hex.
    rewrite pollAt_afterVote. by rewrite decide_True.
  - unfold hasUserVoted. rewrite pollExists_Ok by exact Hex. simpl. by rewrite Hvoted.
  - intros txs env2 e2 proof2 Hsender s2.
    assert (Hv2 : votedAt s2 pid (msg_sender env2) = true).
    { rewrite Hsender. apply run_voted, Hvoted. }
    destruct (vote_again_rejected s2 env2 pid e2 proof2 Hv2) as (Hno & Hsame & Hmsg).
    split; [exact Hno|]. split; [exact Hsame|]. split; [by rewrite Hsame|].
    intros Hwin Hfin2. exists "Already voted". split; [|reflexivity].
    apply Hmsg; auto.
    apply N.lt_le_trans with (m := _pollCount (afterVote s env pid counts' grants'));
      [exact Hex | apply run_pollCount].
Qed.

Lemma one_vote_per_voter_witness :
  exists s',
    vote frameworkPoll (sampleEnv alice 101) 0 (ballot alice 1) [] = Ok s' /\
    getTotalVoters frameworkPoll 0 = Ok 0 /\
    getTotalVoters s' 0 = Ok (0 + 1) /\
    hasUserVoted s' 0 alice = Ok true /\
    fails_with (vote s' (sampleEnv alice 102) 0 (ballot alice 0) []) AlreadyVoted.
Proof.
  destruct (one_vote_per_voter frameworkPoll (sampleEnv alice 101) 0 (ballot alice 1) [])
    as (s' & Hvote & Hbefore & Hafter & Hvoted & Hagain).
  - exact frameworkPoll_reachable.
  - reflexivity.
  - split; vm_compute; discriminate.
  - reflexivity.
  - reflexivity.
  - reflexivity.
  - reflexivity.
  - exists s'. repeat split; try assumption.
    destruct (Hagain [] (sampleEnv alice 102) (ballot alice 0) [] eq_refl)
      as (_ & _ & _ & Hmsg).
    apply Hmsg.
    + assert (Hs' : s' = step frameworkPoll (sampleEnv alice 101, CastVote 0 (ballot alice 1) [])).
      { assert (Hv : vote frameworkPoll (sampleEnv alice 101) 0 (ballot alice 1) []
                     = Ok (step frameworkPoll
                             (sampleEnv alice 101, CastVote 0 (ballot alice 1) [])))
          by reflexivity.
        congruence. }
      rewrite Hs'. split; vm_compute; discriminate.
    + assert (Hv : vote frameworkPoll (sampleEnv alice 101) 0 (ballot alice 1) []
                   = Ok (step frameworkPoll
                           (sampleEnv alice 101, CastVote 0 (ballot alice 1) [])))
        by reflexivity.
      assert (Hs' : s' = step frameworkPoll (sampleEnv alice 101, CastVote 0 (ballot alice 1) []))
        by congruence.
      rewrite Hs'. reflexivity.
Defined.

(** ** Requesting finalization *)

(** C7 (violated by the contract). A poll in state Open should be accepted
    for finalization at any time.  [createPoll] however leaves the counters
    as uninitialised handles, on which nobody holds a grant, and
    [FHE.requestDecryption] refuses ciphertexts the contract holds no grant
    on: on a poll nobody has voted on yet, [requestFinalization] reverts for
    every caller and at every block time, with an error that is none of the
    specification's, and the poll stays Open.  The same request is accepted
    as soon as one ballot was cast. *)
Theorem requestFinalization_rejects_poll_without_votes :
  getPollInfo frameworkPoll 0
  = Ok ("Best Framework", ["React"; "Vue"; "Angular"], 50, 1000, deployer,
        false, false, 0) /\
  lifecycleState (pollAt frameworkPoll 0) = Open /\
  (forall env, requestFinalization frameworkPoll env 0 = Revert "SenderNotAllowed") /\
  spec_error "SenderNotAllowed" = None /\
  step frameworkPoll (sampleEnv deployer 104, RequestFinalization 0) = frameworkPoll /\
  exists s',
    requestFinalization
      (step frameworkPoll (sampleEnv alice 101, CastVote 0 (ballot alice 0) []))
      (sampleEnv deployer 104) 0 = Ok s' /\
    lifecycleState (pollAt s' 0) = DecryptionPending.
Proof.
  split; [vm_compute; reflexivity|]. split; [vm_compute; reflexivity|].
  split; [intros env; vm_compute; reflexivity|].
  split; [vm_compute; reflexivity|]. split; [vm_compute; reflexivity|].
  eexists. split; vm_compute; reflexivity.
Qed.

(** ** The decryption callback *)

Lemma fails_with_unique {A} (c : result A) (e1 e2 : SpecError) :
  fails_with c e1 -> fails_with c e2 -> e1 = e2.
Proof. intros (r1 & H1 & He1) (r2 & H2 & He2). congruence. Qed.

Lemma lifecycle_Finalized p : lifecycleState p = Finalized -> finalized p = true.
Proof.
  unfold lifecycleState. destruct (finalized p); [reflexivity|].
  destruct (decryptionPending p); discriminate.
Qed.

(** In a reachable state a finalized poll is not pending. *)
Lemma finalized_not_pending s pid :
  storage_ok s -> pid < _pollCount s -> finalized (pollAt s pid) = true ->
  decryptionPending (pollAt s pid) = false.
Proof.
  intros [Hpolls _] Hex Hfin. destruct (Hpolls pid Hex) as [_ _ _ Hflags].
  rewrite Hfin in Hflags. exact Hflags.
Qed.

(** C8 (amended). [decryptionCallback] fails with UnknownRequest when the
    request id does not stand for a poll that is pending under that id, and
    with ResultLengthMismatch when it does but the number of cleartexts
    differs from the poll's number of options.  A repeated callback for a
    poll that is already Finalized also fails with UnknownRequest (the
    message is "No pending decryption"; the callback has no AlreadyFinalized
    failure) and leaves storage as it was; no callback at all alters the
    revealed counts of a finalized poll. *)
Theorem decryptionCallback_guards (s : State) (env : Env)
    (rid : N) (cts : payload) (sigs : list bytes) :
  reachable s ->
  (pendingPollOf s rid = None ->
     fails_with (decryptionCallback s env rid cts sigs) UnknownRequest) /\
  (forall pid values,
     pendingPollOf s rid = Some pid -> cts = Encoded values ->
     length values <> length (options (pollAt s pid)) ->
     fails_with (decryptionCallback s env rid cts sigs) ResultLengthMismatch) /\
  (forall pid,
     pid < _pollCount s -> lifecycleState (pollAt s pid) = Finalized ->
     requestToPollAt s rid = pid ->
     fails_with (decryptionCallback s env rid cts sigs) UnknownRequest /\
     ~ fails_with (decryptionCallback s env rid cts sigs) AlreadyFinalized /\
     step s (env, DecryptionCallback rid cts sigs) = s) /\
  (forall pid,
     pid < _pollCount s -> lifecycleState (pollAt s pid) = Finalized ->
     getResults (step s (env, DecryptionCallback rid cts sigs)) pid = getResults s pid).
Proof.
  intros Hreach. pose proof (reachable_ok s Hreach) as Hok.
  assert (Hunknown : pendingPollOf s rid = None ->
            fails_with (decryptionCallback s env rid cts sigs) UnknownRequest).
  { unfold pendingPollOf, decryptionCallback. intros Hnone.
    destruct (requestToPollAt s rid <? _pollCount s).
    - rewrite andb_true_l in Hnone.
      destruct (decryptionPending _ && (_ =? rid)); [discriminate|].
      exists "No pending decryption". split; reflexivity.
    - exists "Invalid request ID". split; reflexivity. }
  assert (Hnone : forall pid, pid < _pollCount s ->
            lifecycleState (pollAt s pid) = Finalized ->
            requestToPollAt s rid = pid -> pendingPollOf s rid = None).
  { intros pid Hex Hfin Hmap. unfold pendingPollOf. rewrite Hmap.
    rewrite (finalized_not_pending s pid Hok Hex (lifecycle_Finalized _ Hfin)).
    rewrite andb_false_r. reflexivity. }
  split; [exact Hunknown|]. split; [|split].
  - intros pid values Hsome -> Hlen. exists "Result length mismatch".
    split; [|reflexivity].
    unfold pendingPollOf in Hsome. unfold decryptionCallback.
    destruct (requestToPollAt s rid <? _pollCount s) eqn:Hex; [|discriminate].
    rewrite andb_true_l in Hsome.
    destruct (decryptionPending _ && (_ =? rid)); [|discriminate].
    injection Hsome as Hpid. rewrite Hpid. apply N.ltb_lt in Hex. rewrite Hpid in Hex.
    destruct Hok as [Hpolls _]. destruct (Hpolls pid Hex) as [_ Henc _ _].
    simpl. destruct (Nat.eqb_spec (length values) (length (encryptedCounts (pollAt s pid))));
      [congruence | reflexivity].
  - intros pid Hex Hfin Hmap.
    pose proof (Hunknown (Hnone pid Hex Hfin Hmap)) as Hfail.
    split; [exact Hfail|]. split.
    + intros Hbad. pose proof (fails_with_unique _ _ _ Hfail Hbad). discriminate.
    + destruct Hfail as (reason & Hrev & _). unfold step. simpl. by rewrite Hrev.
  - intros pid Hex Hfin. unfold step. simpl.
    destruct (decryptionCallback s env rid cts sigs) as [[s' b]| |] eqn:Hcb;
      try reflexivity.
    apply decryptionCallback_Ok_shape in Hcb
      as (results & stored & Hq & Hpend & _ & _ & _ & _ & _ & ->).
    simpl. unfold getResults, pollExists. simpl.
    rewrite pollAt_afterCallback. case_decide as Hd; [|reflexivity].
    subst pid.
    rewrite (finalized_not_pending s _ Hok Hex (lifecycle_Finalized _ Hfin)) in Hpend.
    discriminate.
Qed.

Lemma pendingPoll_reachable : reachable pendingPoll.
Proof. exists (take 5 sampleTrace). vm_compute. reflexivity. Qed.

Lemma finalizedPoll_reachable : reachable finalizedPoll.
Proof. exists sampleTrace. vm_compute. reflexivity. Qed.

Lemma decryptionCallback_guards_witness :
  fails_with (decryptionCallback pendingPoll (sampleEnv oracle 105) 8 (Encoded [2; 1; 0]) [])
             UnknownRequest /\
  fails_with (decryptionCallback pendingPoll (sampleEnv oracle 105) 7 (Encoded [2; 1]) [])
             ResultLengthMismatch /\
  fails_with (decryptionCallback finalizedPoll (sampleEnv oracle 106) 7 (Encoded [9; 9; 9]) [])
             UnknownRequest /\
  getResults
    (step finalizedPoll (sampleEnv oracle 106, DecryptionCallback 7 (Encoded [9; 9; 9]) [])) 0
  = getResults finalizedPoll 0.
Proof.
  destruct (decryptionCallback_guards pendingPoll (sampleEnv oracle 105) 8
              (Encoded [2; 1; 0]) [] pendingPoll_reachable) as (Hunknown & _).
  destruct (decryptionCallback_guards pendingPoll (sampleEnv oracle 105) 7
              (Encoded [2; 1]) [] pendingPoll_reachable) as (_ & Hlength & _).
  destruct (decryptionCallback_guards finalizedPoll (sampleEnv oracle 106) 7
              (Encoded [9; 9; 9]) [] finalizedPoll_reachable) as (_ & _ & Hagain & Hkept).
  split; [|split; [|split]].
  - apply Hunknown. vm_compute. reflexivity.
  - apply (Hlength 0 [2; 1]).
    + vm_compute. reflexivity.
    + reflexivity.
    + vm_compute. discriminate.
  - apply (Hagain 0).
    + vm_compute. reflexivity.
    + vm_compute. reflexivity.
    + vm_compute. reflexivity.
  - apply (Hkept 0).
    + vm_compute. reflexivity.
    + vm_compute. reflexivity.
Defined.

(** C8 as first stated (failure AlreadyFinalized) does not hold: a second
    callback for the finalized poll is turned away with "No pending
    decryption", which is not the AlreadyFinalized failure. *)
Lemma repeated_callback_not_AlreadyFinalized :
  lifecycleState (pollAt finalizedPoll 0) = Finalized /\
  requestToPollAt finalizedPoll 7 = 0 /\
  decryptionCallback finalizedPoll (sampleEnv oracle 106) 7 (Encoded [2; 1; 0]) []
  = Revert "No pending decryption" /\
  ~ fails_with
      (decryptionCallback finalizedPoll (sampleEnv oracle 106) 7 (Encoded [2; 1; 0]) [])
      AlreadyFinalized.
Proof.
  split; [vm_compute; reflexivity|]. split; [vm_compute; reflexivity|].
  split; [vm_compute; reflexivity|].
  intros (reason & Hrev & Herr).
  assert (H : decryptionCallback finalizedPoll (sampleEnv oracle 106) 7
                (Encoded [2; 1; 0]) [] = Revert "No pending decryption")
    by (vm_compute; reflexivity).
  rewrite H in Hrev. injection Hrev as <-. vm_compute in Herr. discriminate Herr.
Qed.

(** ** The lifecycle only moves forward *)

Lemma transition_lifecycle s s' pid :
  storage_ok s -> transition s s' -> pid < _pollCount s ->
  lifecycleState (pollAt s' pid) = lifecycleState (pollAt s pid) \/
  next (lifecycleState (pollAt s pid)) = Some (lifecycleState (pollAt s' pid)).
Proof.
  intros Hok Ht Hpid.
  destruct Ht as [env t os st et _ _
                 | env q e counts' grants' _ _ _ _
                 | env q _ Hfin Hpend
                 | rid results stored Hex Hpend _ _].
  - rewrite pollAt_afterCreate. rewrite decide_False by lia. auto.
  - rewrite pollAt_afterVote. case_decide; [subst q|]; auto.
  - rewrite pollAt_afterRequest. case_decide; [subst q|]; auto.
    right. unfold lifecycleState. simpl. rewrite Hfin, Hpend. reflexivity.
  - rewrite pollAt_afterCallback. case_decide as Hd; auto. subst pid.
    right. unfold lifecycleState. simpl. rewrite Hpend.
    destruct Hok as [Hpolls _]. destruct (Hpolls _ Hex) as [_ _ _ Hflags].
    rewrite Hpend, andb_true_r in Hflags. rewrite Hflags. reflexivity.
Qed.

Lemma lifecycle_step_rank l l' :
  l' = l \/ next l = Some l' -> (rank l <= rank l')%nat.
Proof.
  intros [-> | H]; [lia|].
  destruct l; simpl in H; try discriminate H; injection H as <-; simpl; lia.
Qed.

Lemma run_rank txs : forall s pid,
  storage_ok s -> pid < _pollCount s ->
  (rank (lifecycleState (pollAt s pid))
   <= rank (lifecycleState (pollAt (run s txs) pid)))%nat.
Proof.
  induction txs as [|tx txs IH]; intros s pid Hok Hpid; [simpl; lia|].
  rewrite run_cons.
  assert (Hstep : (rank (lifecycleState (pollAt s pid))
                   <= rank (lifecycleState (pollAt (step s tx) pid)))%nat).
  { destruct (step_cases s tx) as [-> | Ht]; [lia|].
    by apply lifecycle_step_rank, transition_lifecycle. }
  assert (Hpid' : pid < _pollCount (step s tx)).
  { destruct (step_cases s tx) as [-> | Ht]; [exact Hpid|].
    apply transition_pollCount in Ht. lia. }
  specialize (IH (step s tx) pid (step_ok s tx Hok) Hpid'). lia.
Qed.

(** C9. In every state the contract can reach, for every poll: the
    [finalized] and [decryptionPending] flags are not both set; any single
    transaction either leaves the poll's lifecycle state alone or moves it
    to the next state of Open, DecryptionPending, Finalized (none is skipped,
    none goes back); along any further sequence of transactions the state
    never decreases; and the event log holds at most one PollFinalized for
    the poll, so it is never finalized twice.  A new poll starts Open. *)
Theorem lifecycle_only_moves_forward (s : State) (pid : N) :
  reachable s ->
  pid < _pollCount s ->
  finalized (pollAt s pid) && decryptionPending (pollAt s pid) = false /\
  (forall tx,
     lifecycleState (pollAt (step s tx) pid) = lifecycleState (pollAt s pid) \/
     next (lifecycleState (pollAt s pid))
     = Some (lifecycleState (pollAt (step s tx) pid))) /\
  (forall txs,
     (rank (lifecycleState (pollAt s pid))
      <= rank (lifecycleState (pollAt (run s txs) pid)))%nat) /\
  (forall txs, (finalizations pid (events (run s txs)) <= 1)%nat) /\
  (forall env t os st et s' pid',
     createPoll s env t os st et = Ok (s', pid') ->
     lifecycleState (pollAt s' pid') = Open /\
     pollAt s' pid = pollAt s pid).
Proof.
  intros Hreach Hpid. pose proof (reachable_ok s Hreach) as Hok.
  split; [|split; [|split; [|split]]].
  - destruct Hok as [Hpolls _]. by destruct (Hpolls pid Hpid).
  - intros tx. destruct (step_cases s tx) as [-> | Ht]; [by left|].
    by apply transition_lifecycle.
  - intros txs. by apply run_rank.
  - intros txs. destruct (run_ok txs s Hok) as [_ Hlog]. rewrite Hlog.
    destruct (_ && _); lia.
  - intros env t os st et s' pid' H.
    apply createPoll_Ok_shape in H as (_ & _ & _ & _ & _ & -> & ->).
    rewrite !pollAt_afterCreate. rewrite decide_True by reflexivity.
    rewrite decide_False by lia. split; reflexivity.
Qed.

Lemma lifecycle_only_moves_forward_witness :
  reachable pendingPoll /\ 0 < _pollCount pendingPoll /\
  (lifecycleState (pollAt finalizedPoll 0) = lifecycleState (pollAt pendingPoll 0) \/
   next (lifecycleState (pollAt pendingPoll 0))
   = Some (lifecycleState (pollAt finalizedPoll 0))) /\
  (finalizations 0 (events (run pendingPoll twoCallbacks)) <= 1)%nat.
Proof.
  assert (Hpid : 0 < _pollCount pendingPoll) by (vm_compute; reflexivity).
  destruct (lifecycle_only_moves_forward pendingPoll 0 pendingPoll_reachable Hpid)
    as (_ & Hstep & _ & Honce & _).
  split; [exact pendingPoll_reachable|]. split; [exact Hpid|]. split.
  - exact (Hstep (sampleEnv oracle 105, DecryptionCallback 7 (Encoded [2; 1; 0]) [])).
  - apply Honce.
Defined.

(** ** Who may decrypt the running counters *)

Lemma isAllowed_true (grants : ACL) (h : handle) (a : address) :
  (h, a) ∈ grants -> isAllowed grants h a = true.
Proof. intros H. unfold isAllowed. by apply bool_decide_eq_true. Qed.

(** X20. Every accepted vote opens every per-option counter of the poll, as
    it stands right after that vote, to the caller, to the poll creator and
    to the contract, while the poll is not finalized; grants are never
    withdrawn, so the voter and the creator keep the permission on those
    ciphertexts through every later transaction. *)
Theorem vote_grants_decryption (s : State) (env : Env) (pid : N)
    (e : externalEuint32) (proof : bytes) (s' : State) :
  reachable s ->
  vote s env pid e proof = Ok s' ->
  let poll' := pollAt s' pid in
  finalized poll' = false /\
  length (encryptedCounts poll') = length (options poll') /\
  (forall c, c ∈ encryptedCounts poll' ->
     isAllowed (acl s') c (msg_sender env) = true /\
     isAllowed (acl s') c (creator poll') = true /\
     isAllowed (acl s') c (this env) = true) /\
  (forall txs c, c ∈ encryptedCounts poll' ->
     isAllowed (acl (run s' txs)) c (msg_sender env) = true /\
     isAllowed (acl (run s' txs)) c (creator poll') = true).
Proof.
  intros Hreach H poll'.
  apply vote_Ok_shape in H
    as (counts' & grants' & Hex & _ & _ & Hfin & _ & _ & _ & Hloop & ->).
  destruct (reachable_ok s Hreach) as [Hpolls _].
  destruct (Hpolls pid Hex) as [_ Henc _ _].
  apply voteLoop_Ok in Hloop as (_ & Hlen & _ & _ & Hacl & _).
  subst poll'. rewrite pollAt_afterVote. rewrite decide_True by reflexivity.
  cbn [finalized encryptedCounts options creator].
  assert (Hgrants : forall c, c ∈ counts' ->
            (c, creator (pollAt s pid)) ∈ grants' /\ (c, msg_sender env) ∈ grants'
            /\ (c, this env) ∈ grants').
  { intros c Hc. apply list_elem_of_lookup in Hc as [j Hj].
    pose proof (lookup_lt_Some _ _ _ Hj) as Hlt.
    apply (Hacl j c); [lia | exact Hj]. }
  split; [exact Hfin|]. split; [congruence|]. split.
  - intros c Hc. destruct (Hgrants c Hc) as (Hcr & Hse & Hth).
    simpl. auto using isAllowed_true.
  - intros txs c Hc. destruct (Hgrants c Hc) as (Hcr & Hse & _).
    split; apply isAllowed_true, (run_acl txs (afterVote s env pid counts' grants'));
      assumption.
Qed.

Lemma vote_grants_decryption_witness :
  reachable frameworkPoll /\
  vote frameworkPoll (sampleEnv alice 101) 0 (ballot alice 0) []
  = Ok (step frameworkPoll (sampleEnv alice 101, CastVote 0 (ballot alice 0) [])) /\
  forall c,
    c ∈ encryptedCounts
          (pollAt (step frameworkPoll (sampleEnv alice 101, CastVote 0 (ballot alice 0) [])) 0) ->
    isAllowed (acl twoVotes) c alice = true.
Proof.
  assert (Hvote : vote frameworkPoll (sampleEnv alice 101) 0 (ballot alice 0) []
    = Ok (step frameworkPoll (sampleEnv alice 101, CastVote 0 (ballot alice 0) [])))
    by (vm_compute; reflexivity).
  split; [exact frameworkPoll_reachable|]. split; [exact Hvote|].
  destruct (vote_grants_decryption frameworkPoll (sampleEnv alice 101) 0 (ballot alice 0) [] _
              frameworkPoll_reachable Hvote) as (_ & _ & _ & Hkept).
  intros c Hc.
  exact (proj1 (Hkept [(sampleEnv bob 102, CastVote 0 (ballot bob 1) [])] c Hc)).
Defined.

(** C10 (violated by the contract). Every account that has voted on a poll
    should be able to decrypt its running tallies.  [vote] however replaces
    each counter by a new ciphertext and opens it to the caller of that
    vote, the creator and the contract only, so the voters before the last
    one hold no grant on the counters the poll stores.  After alice, bob and
    carol have voted on the deployer's poll, the counters hold 2, 1, 0;
    carol and the deployer may decrypt them, alice and bob may decrypt none
    of them. *)
Theorem earlier_voters_cannot_decrypt_running_tally :
  hasUserVoted votedPoll 0 alice = Ok true /\
  hasUserVoted votedPoll 0 bob = Ok true /\
  hasUserVoted votedPoll 0 carol = Ok true /\
  lifecycleState (pollAt votedPoll 0) = Open /\
  getEncryptedCounts votedPoll 0 = Ok (encryptedCounts (pollAt votedPoll 0)) /\
  map decrypt (encryptedCounts (pollAt votedPoll 0)) = [2; 1; 0] /\
  Forall (fun c => isAllowed (acl votedPoll) c alice = false
                   /\ isAllowed (acl votedPoll) c bob = false
                   /\ isAllowed (acl votedPoll) c carol = true
                   /\ isAllowed (acl votedPoll) c deployer = true)
         (encryptedCounts (pollAt votedPoll 0)).
Proof.
  split; [vm_compute; reflexivity|]. split; [vm_compute; reflexivity|].
  split; [vm_compute; reflexivity|]. split; [vm_compute; reflexivity|].
  split; [vm_compute; reflexivity|]. split; [vm_compute; reflexivity|].
  apply Forall_forall. intros c Hc.
  vm_compute in Hc.
  repeat (apply elem_of_cons in Hc as [-> | Hc];
          [repeat split; vm_compute; reflexivity|]).
  by apply elem_of_nil in Hc.
Qed.

(** ** Tallying *)

Lemma countOf_Permutation i l1 l2 : Permutation l1 l2 -> countOf i l1 = countOf i l2.
Proof.
  induction 1 as [| x l1 l2 _ IH | x y l | l1 l2 l3 _ IH1 _ IH2]; simpl.
  - reflexivity.
  - by rewrite IH.
  - lia.
  - congruence.
Qed.

Lemma histogram_Permutation n l1 l2 :
  Permutation l1 l2 -> histogram n l1 = histogram n l2.
Proof.
  intros Hp. unfold histogram. apply map_ext. intros i. by apply countOf_Permutation.
Qed.

Lemma countOf_le i l : countOf i l <= N.of_nat (length l).
Proof.
  induction l as [|c l IH]; simpl length; simpl countOf; [lia|].
  destruct (c =? i); lia.
Qed.

Lemma sum_indicator (c : N) (n : nat) :
  sum (map (fun i => if c =? N.of_nat i then 1 else 0) (seq 0 n))
  = if c <? N.of_nat n then 1 else 0.
Proof.
  induction n as [|n IH]; [by destruct c|].
  rewrite seq_S, map_app. unfold sum in *. rewrite foldr_app. simpl.
  assert (Hacc : forall (l : list N) a, foldr N.add a l = foldr N.add 0 l + a).
  { induction l as [|x l IHl]; intros a; simpl; [lia|]. rewrite IHl. lia. }
  rewrite Hacc, IH.
  destruct (N.eqb_spec c (N.of_nat n)), (N.ltb_spec c (N.of_nat n)),
           (N.ltb_spec c (N.of_nat (S n))); lia.
Qed.

Lemma sum_map_add {A} (f g : A -> N) (l : list A) :
  sum (map (fun x => f x + g x) l) = sum (map f l) + sum (map g l).
Proof. induction l as [|x l IH]; simpl; [reflexivity|]. unfold sum in *. simpl. lia. Qed.

(** With every choice inside the option range, the histogram accounts for
    every ballot exactly once. *)
Lemma sum_histogram n choices :
  Forall (fun c => c < N.of_nat n) choices ->
  sum (histogram n choices) = N.of_nat (length choices).
Proof.
  induction 1 as [|c choices Hc _ IH].
  - unfold histogram. simpl. induction (seq 0 n); [reflexivity | assumption].
  - change (histogram n (c :: choices))
      with (map (fun i => (if c =? N.of_nat i then 1 else 0)
                          + countOf (N.of_nat i) choices) (seq 0 n)).
    rewrite sum_map_add, sum_indicator. fold (histogram n choices). rewrite IH.
    apply N.ltb_lt in Hc. rewrite Hc. simpl length. lia.
Qed.

(** One accepted ballot, seen through decryption. *)
Lemma vote_tally s env pid e proof s' :
  storage_ok s ->
  vote s env pid e proof = Ok s' ->
  storage_ok s' /\
  _pollCount s' = _pollCount s /\
  pid < _pollCount s /\
  options (pollAt s' pid) = options (pollAt s pid) /\
  lifecycleState (pollAt s' pid) = lifecycleState (pollAt s pid) /\
  totalVoters (pollAt s' pid) = totalVoters (pollAt s pid) + 1 /\
  forall i c,
    encryptedCounts (pollAt s pid) !! i = Some c ->
    exists c',
      encryptedCounts (pollAt s' pid) !! i = Some c' /\
      decrypt c'
      = (decrypt c + (if decrypt (Input e) =? N.of_nat i then 1 else 0))
        mod uint32_modulus.
Proof.
  intros Hok H.
  assert (Hok' : storage_ok s').
  { apply (transition_ok s); [exact Hok|].
    by apply (execute_transition s env (CastVote pid e proof)). }
  apply vote_Ok_shape in H
    as (counts' & grants' & Hex & _ & _ & _ & _ & _ & _ & Hloop & ->).
  destruct Hok as [Hpolls _]. pose proof (Hpolls pid Hex) as Hpoll.
  destruct (Hpoll) as [_ Henc _ _].
  apply voteLoop_Ok in Hloop as (_ & _ & Hin & _).
  rewrite pollAt_afterVote. rewrite decide_True by reflexivity.
  split; [exact Hok'|]. split; [reflexivity|]. split; [exact Hex|].
  split; [reflexivity|]. split; [reflexivity|]. split; [reflexivity|].
  intros i c Hc. cbn [encryptedCounts].
  pose proof (lookup_lt_Some _ _ _ Hc) as Hi. rewrite Henc in Hi.
  exists (bump (Input e) i c). split.
  - rewrite Hin by lia. rewrite Hc. reflexivity.
  - apply decrypt_bump. by apply (small_index (pollAt s pid)).
Qed.

(** A run of accepted ballots adds, to the cleartext of each counter, the
    number of ballots whose choice is that option. *)
Lemma castVotes_tally pid bs : forall s s',
  storage_ok s ->
  castVotes s pid bs = Ok s' ->
  storage_ok s' /\
  _pollCount s' = _pollCount s /\
  options (pollAt s' pid) = options (pollAt s pid) /\
  lifecycleState (pollAt s' pid) = lifecycleState (pollAt s pid) /\
  totalVoters (pollAt s' pid) = totalVoters (pollAt s pid) + N.of_nat (length bs) /\
  forall i c,
    encryptedCounts (pollAt s pid) !! i = Some c ->
    exists c',
      encryptedCounts (pollAt s' pid) !! i = Some c' /\
      decrypt c'
      = (decrypt c + countOf (N.of_nat i) (map choiceOf bs)) mod uint32_modulus.
Proof.
  induction bs as [|b bs IH]; intros s s' Hok H.
  - injection H as <-.
    split; [exact Hok|]. split; [reflexivity|]. split; [reflexivity|].
    split; [reflexivity|]. split; [simpl; lia|].
    intros i c Hc. exists c. split; [exact Hc|]. simpl.
    rewrite N.add_0_r. symmetry. apply N.mod_small, decrypt_range.
  - unfold castVotes in H. simpl in H. apply bind_Ok in H as (s1 & Hvote & Hrest).
    apply vote_tally in Hvote as (Hok1 & Hcount1 & _ & Hopts1 & Hlife1 & Htot1 & Hdec1);
      [|exact Hok].
    apply IH in Hrest as (Hok' & Hcount' & Hopts' & Hlife' & Htot' & Hdec');
      [|exact Hok1].
    split; [exact Hok'|]. split; [congruence|]. split; [congruence|].
    split; [congruence|]. split.
    + rewrite Htot', Htot1. simpl length. lia.
    + intros i c Hc. destruct (Hdec1 i c Hc) as (c1 & Hc1 & Hd1).
      destruct (Hdec' i c1 Hc1) as (c' & Hc' & Hd').
      exists c'. split; [exact Hc'|]. rewrite Hd', Hd1.
      change (map choiceOf (b :: bs)) with (choiceOf b :: map choiceOf bs).
      cbn [countOf].
      rewrite N.Div0.add_mod_idemp_l. rewrite <- N.add_assoc. reflexivity.
Qed.

(** ** What the contract may hand to the decryption authority *)

Lemma lifecycle_Open p :
  lifecycleState p = Open -> finalized p = false /\ decryptionPending p = false.
Proof.
  unfold lifecycleState. destruct (finalized p); [discriminate|].
  destruct (decryptionPending p); [discriminate | auto].
Qed.

Lemma holdsCounters_true s c pid :
  holdsCounters s c pid = true <->
  forall h, h ∈ encryptedCounts (pollAt s pid) -> (h, c) ∈ acl s.
Proof.
  unfold holdsCounters, isAllowed. rewrite forallb_forall. split.
  - intros H h Hh. apply list_elem_of_In in Hh.
    specialize (H h Hh). by apply bool_decide_eq_true in H.
  - intros H h Hh. apply list_elem_of_In in Hh.
    by apply bool_decide_eq_true, H.
Qed.

Lemma holdsCounters_mono s s' c pid :
  acl s ⊆ acl s' ->
  encryptedCounts (pollAt s' pid) = encryptedCounts (pollAt s pid) ->
  holdsCounters s c pid = true -> holdsCounters s' c pid = true.
Proof.
  rewrite !holdsCounters_true. intros Hsub Heq H h Hh.
  rewrite Heq in Hh. by apply Hsub, H.
Qed.

(** An accepted vote leaves the contract with a grant on every counter of
    the poll. *)
Lemma vote_holdsCounters s env pid e proof s' :
  storage_ok s ->
  vote s env pid e proof = Ok s' ->
  holdsCounters s' (this env) pid = true.
Proof.
  intros [Hpolls _] H.
  apply vote_Ok_shape in H
    as (counts' & grants' & Hex & _ & _ & _ & _ & _ & _ & Hloop & ->).
  destruct (Hpolls pid Hex) as [_ Henc _ _].
  apply voteLoop_Ok in Hloop as (_ & Hlen & _ & _ & Hacl & _).
  apply holdsCounters_true. intros h Hh.
  rewrite pollAt_afterVote in Hh. rewrite decide_True in Hh by reflexivity.
  cbn [encryptedCounts] in Hh. apply list_elem_of_lookup in Hh as [j Hj].
  pose proof (lookup_lt_Some _ _ _ Hj) as Hlt.
  apply (Hacl j h); [lia | exact Hj].
Qed.

(** So does a run of accepted ballots that is not empty, all of them sent
    to the contract at the same address. *)
Lemma castVotes_holdsCounters c pid bs : forall s s',
  storage_ok s ->
  bs <> [] ->
  Forall (fun b : Ballot => this b.1.1 = c) bs ->
  castVotes s pid bs = Ok s' ->
  holdsCounters s' c pid = true.
Proof.
  induction bs as [|b bs IH]; intros s s' Hok Hne Hthis H; [by destruct Hne|].
  unfold castVotes in H. simpl in H. apply bind_Ok in H as (s1 & Hvote & Hrest).
  apply Forall_cons in Hthis as [Hb Hthis].
  destruct bs as [|b' bs].
  - injection Hrest as <-. rewrite <- Hb. by eapply vote_holdsCounters.
  - apply (IH s1 s'); [|discriminate | exact Hthis | exact Hrest].
    apply (transition_ok s); [exact Hok|].
    by apply (execute_transition s b.1.1 (CastVote pid b.1.2 b.2)).
Qed.

(** ** Finalization with an honest authority *)

Lemma requestFinalization_accepts s env pid :
  pid < _pollCount s ->
  finalized (pollAt s pid) = false ->
  decryptionPending (pollAt s pid) = false ->
  holdsCounters s (this env) pid = true ->
  requestFinalization s env pid = Ok (afterRequest s env pid).
Proof.
  intros Hex Hfin Hpend Hheld. unfold requestFinalization, afterRequest.
  rewrite pollExists_Ok by exact Hex. cbn zeta. rewrite Hfin, Hpend.
  unfold FHE_requestDecryption. rewrite map_toBytes32.
  unfold holdsCounters in Hheld. rewrite Hheld. reflexivity.
Qed.

Lemma requestFinalization_refuses s env pid :
  pid < _pollCount s ->
  finalized (pollAt s pid) = false ->
  decryptionPending (pollAt s pid) = false ->
  holdsCounters s (this env) pid = false ->
  requestFinalization s env pid = Revert "SenderNotAllowed".
Proof.
  intros Hex Hfin Hpend Hheld. unfold requestFinalization.
  rewrite pollExists_Ok by exact Hex. cbn zeta. rewrite Hfin, Hpend.
  unfold FHE_requestDecryption. rewrite map_toBytes32.
  unfold holdsCounters in Hheld. rewrite Hheld. reflexivity.
Qed.

(** The callback checks the request id and the length of the result, and
    nothing else: neither the caller nor the signatures are looked at. *)
Lemma decryptionCallback_accepts s env rid results sigs :
  requestToPollAt s rid < _pollCount s ->
  decryptionPending (pollAt s (requestToPollAt s rid)) = true ->
  requestId (pollAt s (requestToPollAt s rid)) = rid ->
  length results = length (encryptedCounts (pollAt s (requestToPollAt s rid))) ->
  length (decryptedCounts (pollAt s (requestToPollAt s rid))) = length results ->
  decryptionCallback s env rid (Encoded results) sigs
  = Ok (afterCallback s (requestToPollAt s rid) results, true).
Proof.
  intros Hex Hpend Hrid Hlen Hdec.
  destruct (storeLoop_total results (length results) 0
              (decryptedCounts (pollAt s (requestToPollAt s rid))))
    as [stored Hstored]; [lia | lia |].
  pose proof (storeLoop_all _ _ _ Hdec Hstored) as ->.
  assert (Hguard : decryptionPending (pollAt s (requestToPollAt s rid))
                   && (requestId (pollAt s (requestToPollAt s rid)) =? rid) = true).
  { rewrite Hpend. simpl. by apply N.eqb_eq. }
  unfold decryptionCallback, afterCallback. apply N.ltb_lt in Hex.
  apply Nat.eqb_eq in Hlen.
  cbn zeta. rewrite Hex, Hguard. cbn [abi_decode require mbind result_bind].
  rewrite Hlen. cbn [require]. rewrite Hstored. reflexivity.
Qed.

Lemma requestedCiphertexts_afterRequest s env pid :
  requestedCiphertexts (afterRequest s env pid) (oracle_requestId env)
  = Some (encryptedCounts (pollAt s pid)).
Proof.
  unfold requestedCiphertexts, afterRequest. cbn [decryptionRequests].
  rewrite filter_cons_True by reflexivity. simpl. by rewrite map_toBytes32.
Qed.

Lemma finalize_reveals s envR envC sigs pid :
  storage_ok s ->
  pid < _pollCount s ->
  lifecycleState (pollAt s pid) = Open ->
  holdsCounters s (this envR) pid = true ->
  exists f,
    finalize s envR envC sigs pid = Ok f /\
    getResults f pid = Ok (decrypt <$> encryptedCounts (pollAt s pid)) /\
    getTotalVoters f pid = Ok (totalVoters (pollAt s pid)) /\
    lifecycleState (pollAt f pid) = Finalized.
Proof.
  intros [Hpolls _] Hex Hopen Hheld.
  destruct (Hpolls pid Hex) as [_ Henc Hdec _].
  assert (Hflags : finalized (pollAt s pid) = false
                   /\ decryptionPending (pollAt s pid) = false).
  { unfold lifecycleState in Hopen.
    destruct (finalized (pollAt s pid)); [discriminate|].
    destruct (decryptionPending (pollAt s pid)); [discriminate | auto]. }
  destruct Hflags as [Hfin Hpend].
  set (s1 := afterRequest s envR pid).
  set (rid := oracle_requestId envR).
  assert (Hmap : requestToPollAt s1 rid = pid).
  { unfold requestToPollAt, s1, afterRequest. simpl. by rewrite lookup_insert_eq. }
  assert (Hpoll1 : pollAt s1 pid
            = mkPoll (title (pollAt s pid)) (options (pollAt s pid))
                (startTime (pollAt s pid)) (endTime (pollAt s pid))
                (creator (pollAt s pid)) (finalized (pollAt s pid)) true rid
                (encryptedCounts (pollAt s pid)) (decryptedCounts (pollAt s pid))
                (totalVoters (pollAt s pid))).
  { unfold s1. rewrite pollAt_afterRequest. by rewrite decide_True. }
  assert (Hcb : decryptionCallback s1 envC rid
                  (Encoded (map decrypt (encryptedCounts (pollAt s pid)))) sigs
                = Ok (afterCallback s1 pid (map decrypt (encryptedCounts (pollAt s pid))),
                      true)).
  { pose proof (decryptionCallback_accepts s1 envC rid
                  (map decrypt (encryptedCounts (pollAt s pid))) sigs) as H.
    rewrite Hmap in H. apply H; rewrite ?Hpoll1; simpl.
    - exact Hex.
    - reflexivity.
    - reflexivity.
    - apply length_map.
    - rewrite length_map. congruence. }
  exists (afterCallback s1 pid (map decrypt (encryptedCounts (pollAt s pid)))).
  split; [|split; [|split]].
  - unfold finalize. rewrite requestFinalization_accepts by assumption. simpl.
    fold s1. unfold oracleDelivers. fold rid. unfold s1, rid.
    rewrite requestedCiphertexts_afterRequest. fold s1 rid. rewrite Hcb. reflexivity.
  - unfold getResults. rewrite pollExists_Ok by exact Hex. simpl.
    rewrite pollAt_afterCallback. rewrite decide_True by reflexivity. reflexivity.
  - unfold getTotalVoters. rewrite pollExists_Ok by exact Hex. simpl.
    rewrite pollAt_afterCallback. rewrite decide_True by reflexivity.
    simpl. rewrite Hpoll1. reflexivity.
  - rewrite pollAt_afterCallback. rewrite decide_True by reflexivity. reflexivity.
Qed.

Lemma histogram_lookup n choices i :
  histogram n choices !! i
  = if decide (i < n)%nat then Some (countOf (N.of_nat i) choices) else None.
Proof.
  unfold histogram. change (map ?f ?l) with (f <$> l). rewrite list_lookup_fmap.
  case_decide as Hi.
  - rewrite lookup_seq_lt by exact Hi. reflexivity.
  - rewrite lookup_seq_ge by lia. reflexivity.
Qed.

(** Counters that start at zero decrypt, after a run of accepted ballots,
    to the histogram of the choices (modulo 2^32). *)
Lemma fresh_poll_tally s pid bs s1 :
  storage_ok s ->
  pid < _pollCount s ->
  encryptedCounts (pollAt s pid) = replicate (length (options (pollAt s pid))) Uninit ->
  castVotes s pid bs = Ok s1 ->
  decrypt <$> encryptedCounts (pollAt s1 pid)
  = wrap32 <$> histogram (length (options (pollAt s pid))) (map choiceOf bs).
Proof.
  intros Hok Hex Hfresh Hcast.
  apply castVotes_tally in Hcast as (Hok1 & Hcount & Hopts & _ & _ & Hdec); [|exact Hok].
  destruct Hok1 as [Hpolls1 _].
  destruct (Hpolls1 pid) as [_ Henc1 _ _]; [lia|].
  apply list_eq. intros i. rewrite !list_lookup_fmap, histogram_lookup.
  case_decide as Hi.
  - assert (Hc : encryptedCounts (pollAt s pid) !! i = Some Uninit).
    { rewrite Hfresh. by apply lookup_replicate_2. }
    destruct (Hdec i Uninit Hc) as (c' & Hc' & Hd'). rewrite Hc'. simpl.
    rewrite Hd'. reflexivity.
  - rewrite lookup_ge_None_2; [reflexivity|]. rewrite Henc1, Hopts. lia.
Qed.

Lemma wrap32_small_histogram n choices :
  N.of_nat (length choices) < uint32_modulus ->
  wrap32 <$> histogram n choices = histogram n choices.
Proof.
  intros Hsmall. apply list_eq. intros i.
  rewrite list_lookup_fmap, histogram_lookup. case_decide; [|reflexivity].
  simpl. f_equal. apply N.mod_small.
  pose proof (countOf_le (N.of_nat i) choices). lia.
Qed.

(** X19. Take a poll from its creation, any list of ballots, at least one,
    that the contract accepts one after the other (so from distinct voters),
    and the same ballots in any other order, accepted as well.  Finalization
    requested after the ballots, with an honestly answering authority, then
    succeeds after either run, and the revealed counts are the same: the
    per-option histogram of the choices, modulo 2^32, hence the histogram
    itself for fewer than 2^32 ballots;
    [totalVoters] is the number of ballots, which is also the sum of the
    revealed counts when every choice is a valid option index.  The ballots
    and the requests are sent to the contract at one address. *)
Theorem revealed_counts_are_the_histogram
    (s0 : State) (env0 : Env) (t : string) (os : list string) (st et : N)
    (s : State) (pid : N) (bs bs' : list Ballot) (s1 s2 : State)
    (envR envC envR' envC' : Env) (sigs sigs' : list bytes) :
  reachable s0 ->
  createPoll s0 env0 t os st et = Ok (s, pid) ->
  castVotes s pid bs = Ok s1 ->
  castVotes s pid bs' = Ok s2 ->
  Permutation (map voteOf bs) (map voteOf bs') ->
  bs <> [] ->
  Forall (fun b : Ballot => this b.1.1 = this envR) bs ->
  Forall (fun b : Ballot => this b.1.1 = this envR') bs' ->
  let hist := histogram (length os) (map choiceOf bs) in
  exists f1 f2,
    finalize s1 envR envC sigs pid = Ok f1 /\
    finalize s2 envR' envC' sigs' pid = Ok f2 /\
    getResults f1 pid = Ok (wrap32 <$> hist) /\
    getResults f2 pid = getResults f1 pid /\
    (N.of_nat (length bs) < uint32_modulus ->
       getResults f1 pid = Ok hist /\
       getResults f2 pid = Ok hist /\
       getTotalVoters f1 pid = Ok (N.of_nat (length bs)) /\
       getTotalVoters f2 pid = Ok (N.of_nat (length bs)) /\
       (Forall (fun b => choiceOf b < N.of_nat (length os)) bs ->
          sum hist = N.of_nat (length bs))).
Proof.
  intros Hreach Hcreate Hcast Hcast' Hperm Hne Hthis Hthis' hist.
  assert (Hne' : bs' <> []).
  { intros ->. apply Permutation_length in Hperm. rewrite !length_map in Hperm.
    destruct bs; [by destruct Hne | discriminate Hperm]. }
  pose proof (reachable_ok s0 Hreach) as Hok0.
  assert (Hok : storage_ok s).
  { apply (transition_ok s0); [exact Hok0|].
    apply (execute_transition s0 env0 (CreatePoll t os st et)).
    simpl. rewrite Hcreate. reflexivity. }
  apply createPoll_Ok_shape in Hcreate as (_ & _ & _ & _ & _ & -> & ->).
  set (s := afterCreate s0 env0 t os st et) in *.
  set (pid := _pollCount s0) in *.
  assert (Hpoll : pollAt s pid
            = mkPoll t os st et (msg_sender env0) false false 0
                (replicate (length os) Uninit) (replicate (length os) 0) 0).
  { unfold s. rewrite pollAt_afterCreate. by rewrite decide_True. }
  assert (Hex : pid < _pollCount s) by (simpl; lia).
  assert (Hfresh : encryptedCounts (pollAt s pid)
                   = replicate (length (options (pollAt s pid))) Uninit).
  { rewrite Hpoll. reflexivity. }
  assert (Hos : options (pollAt s pid) = os) by (rewrite Hpoll; reflexivity).
  assert (Hopen : lifecycleState (pollAt s pid) = Open) by (rewrite Hpoll; reflexivity).
  assert (Htot0 : totalVoters (pollAt s pid) = 0) by (rewrite Hpoll; reflexivity).
  assert (Hchoices : Permutation (map choiceOf bs) (map choiceOf bs')).
  { apply (Permutation_map snd) in Hperm. by rewrite !map_map in Hperm. }
  pose proof (fresh_poll_tally s pid bs s1 Hok Hex Hfresh Hcast) as Htally.
  pose proof (fresh_poll_tally s pid bs' s2 Hok Hex Hfresh Hcast') as Htally'.
  rewrite Hos in Htally, Htally'.
  rewrite <- (histogram_Permutation _ _ _ Hchoices) in Htally'. fold hist in Htally, Htally'.
  pose proof (castVotes_holdsCounters _ pid bs s s1 Hok Hne Hthis Hcast) as Hheld1.
  pose proof (castVotes_holdsCounters _ pid bs' s s2 Hok Hne' Hthis' Hcast') as Hheld2.
  apply castVotes_tally in Hcast as (Hok1 & Hcount1 & _ & Hlife1 & Htot1 & _); [|exact Hok].
  apply castVotes_tally in Hcast' as (Hok2 & Hcount2 & _ & Hlife2 & Htot2 & _); [|exact Hok].
  destruct (finalize_reveals s1 envR envC sigs pid) as (f1 & Hf1 & Hres1 & Hvot1 & _);
    [exact Hok1 | lia | congruence | exact Hheld1 |].
  destruct (finalize_reveals s2 envR' envC' sigs' pid) as (f2 & Hf2 & Hres2 & Hvot2 & _);
    [exact Hok2 | lia | congruence | exact Hheld2 |].
  rewrite Htally in Hres1. rewrite Htally' in Hres2.
  exists f1, f2. split; [exact Hf1|]. split; [exact Hf2|].
  split; [exact Hres1|]. split; [congruence|].
  intros Hsmall.
  assert (Hwrap : wrap32 <$> hist = hist).
  { apply wrap32_small_histogram. by rewrite length_map. }
  assert (Hlen : length bs' = length bs).
  { apply Permutation_length in Hperm. rewrite !length_map in Hperm. lia. }
  split; [congruence|]. split; [congruence|].
  split; [rewrite Hvot1, Htot1, Htot0; f_equal; lia|].
  split; [rewrite Hvot2, Htot2, Htot0, Hlen; f_equal; lia|].
  intros Hrange. unfold hist. rewrite sum_histogram; [by rewrite length_map|].
  apply Forall_forall. intros c Hc. apply list_elem_of_In, in_map_iff in Hc as (b & <- & Hb).
  rewrite Forall_forall in Hrange. apply Hrange. by apply list_elem_of_In.
Qed.

Lemma revealed_counts_are_the_histogram_witness :
  exists f1 f2,
    finalize votedPoll (sampleEnv deployer 104) (sampleEnv oracle 105) [] 0 = Ok f1 /\
    finalize shuffledPoll (sampleEnv deployer 104) (sampleEnv oracle 105) [] 0 = Ok f2 /\
    getResults f1 0 = Ok [2; 1; 0] /\
    getResults f2 0 = Ok [2; 1; 0] /\
    getTotalVoters f1 0 = Ok 3 /\
    sum [2; 1; 0] = 3.
Proof.
  assert (Hreach : reachable initialState) by (exists []; reflexivity).
  assert (Hcreate : createPoll initialState (sampleEnv deployer 100) "Best Framework"
                      ["React"; "Vue"; "Angular"] 50 1000 = Ok (frameworkPoll, 0))
    by (vm_compute; reflexivity).
  assert (Hcast : castVotes frameworkPoll 0 sampleBallots = Ok votedPoll)
    by (vm_compute; reflexivity).
  assert (Hcast' : castVotes frameworkPoll 0 shuffledBallots = Ok shuffledPoll)
    by (vm_compute; reflexivity).
  assert (Hperm : Permutation (map voteOf sampleBallots) (map voteOf shuffledBallots)).
  { change (map voteOf sampleBallots)
      with ([voteOf (sampleEnv alice 101, ballot alice 0, []);
             voteOf (sampleEnv bob 102, ballot bob 1, [])]
            ++ [voteOf (sampleEnv carol 101, ballot carol 0, [])])%list.
    symmetry. apply Permutation_cons_append. }
  assert (Hhist : histogram 3 (map choiceOf sampleBallots) = [2; 1; 0])
    by (vm_compute; reflexivity).
  assert (Hne : sampleBallots <> []) by discriminate.
  assert (Hthis : Forall (fun b : Ballot => this b.1.1 = this (sampleEnv deployer 104))
                         sampleBallots) by (repeat constructor).
  assert (Hthis' : Forall (fun b : Ballot => this b.1.1 = this (sampleEnv deployer 104))
                          shuffledBallots) by (repeat constructor).
  destruct (revealed_counts_are_the_histogram
              initialState (sampleEnv deployer 100) "Best Framework"
              ["React"; "Vue"; "Angular"] 50 1000 frameworkPoll 0
              sampleBallots shuffledBallots votedPoll shuffledPoll
              (sampleEnv deployer 104) (sampleEnv oracle 105)
              (sampleEnv deployer 104) (sampleEnv oracle 105) [] []
              Hreach Hcreate Hcast Hcast' Hperm Hne Hthis Hthis')
    as (f1 & f2 & Hf1 & Hf2 & _ & _ & Hexact).
  destruct Hexact as (Hr1 & Hr2 & Ht1 & _ & Hsum); [vm_compute; reflexivity|].
  change (length ["React"; "Vue"; "Angular"]) with 3%nat in Hr1, Hr2, Hsum.
  rewrite Hhist in Hr1, Hr2, Hsum.
  exists f1, f2. split; [exact Hf1|]. split; [exact Hf2|].
  split; [exact Hr1|]. split; [exact Hr2|]. split; [exact Ht1|].
  apply Hsum. repeat constructor.
Defined.

(** ** Where the contract falls short of its documentation *)

(** The callback never looks at its caller or at the signatures. *)
Lemma decryptionCallback_ignores_caller_and_signatures
    (s : State) (env env' : Env) (rid : N) (cts : payload) (sigs sigs' : list bytes) :
  decryptionCallback s env rid cts sigs = decryptionCallback s env' rid cts sigs'.
Proof. reflexivity. Qed.

(** C1 (violated by the contract). The callback is documented to verify the
    KMS signatures before trusting the cleartexts, but with the call to
    [FHE.checkSignatures] commented out and no restriction on the caller,
    an arbitrary account finalizes the pending poll with counts of its own
    choosing and an empty list of signatures.  The encrypted counters hold
    2, 1, 0; the committed result is 0, 0, 3. *)
Theorem unsigned_callback_commits_forged_results :
  lifecycleState (pollAt pendingPoll 0) = DecryptionPending /\
  map decrypt (encryptedCounts (pollAt pendingPoll 0)) = [2; 1; 0] /\
  decryptionCallback pendingPoll (sampleEnv mallory 105) 7 (Encoded [0; 0; 3]) []
  = Ok (forgedPoll, true) /\
  lifecycleState (pollAt forgedPoll 0) = Finalized /\
  getResults forgedPoll 0 = Ok [0; 0; 3].
Proof. repeat split; vm_compute; reflexivity. Qed.

(** C2 (violated by the contract). A poll that is not Open should take no
    more votes, but [vote] guards on [finalized] only, so a ballot cast
    while the poll is DecryptionPending (possible since
    [requestFinalization] no longer waits for the end of the window) is
    accepted: it changes the counters, [hasVoted] and [totalVoters].  The
    ciphertexts handed to the authority were collected before it, so the
    revealed counts then sum to 3 while [totalVoters] is 4. *)
Theorem vote_accepted_while_decryption_pending :
  lifecycleState (pollAt pendingPoll 0) = DecryptionPending /\
  vote pendingPoll (sampleEnv dave 105) 0 (ballot dave 2) [] = Ok lateVote /\
  getTotalVoters pendingPoll 0 = Ok 3 /\
  getTotalVoters lateVote 0 = Ok 4 /\
  hasUserVoted pendingPoll 0 dave = Ok false /\
  hasUserVoted lateVote 0 dave = Ok true /\
  map decrypt (encryptedCounts (pollAt pendingPoll 0)) = [2; 1; 0] /\
  map decrypt (encryptedCounts (pollAt lateVote 0)) = [2; 1; 1] /\
  oracleDelivers lateVote (sampleEnv oracle 106) 7 [] = Ok (lateVoteFinalized, true) /\
  getResults lateVoteFinalized 0 = Ok [2; 1; 0] /\
  getTotalVoters lateVoteFinalized 0 = Ok 4.
Proof. repeat split; vm_compute; reflexivity. Qed.

(** C3 (violated by the contract). The revealed counts should be the
    histogram of the accepted ballots and add up to [totalVoters].  Since
    [vote] accepts a ballot while the decryption is pending (its guard
    excludes finalized polls only), a ballot accepted after the request is
    counted in [totalVoters] and
    in the encrypted counters, but is not among the ciphertexts the authority
    was handed: four ballots by distinct voters with the in-range choices
    0, 1, 0, 2 are accepted, their histogram is 2, 1, 1, and the authority's
    honest answer finalizes the poll with 2, 1, 0, which adds up to 3 while
    [totalVoters] is 4. *)
Theorem late_ballot_missing_from_revealed_counts :
  castVotes frameworkPoll 0 sampleBallots = Ok votedPoll /\
  requestFinalization votedPoll (sampleEnv deployer 104) 0 = Ok pendingPoll /\
  castVotes pendingPoll 0 [lateBallot] = Ok lateVote /\
  oracleDelivers lateVote (sampleEnv oracle 106) 7 [] = Ok (lateVoteFinalized, true) /\
  NoDup (map voterOf (sampleBallots ++ [lateBallot])) /\
  map choiceOf (sampleBallots ++ [lateBallot]) = [0; 1; 0; 2] /\
  length (options (pollAt lateVoteFinalized 0)) = 3%nat /\
  histogram 3 (map choiceOf (sampleBallots ++ [lateBallot])) = [2; 1; 1] /\
  lifecycleState (pollAt lateVoteFinalized 0) = Finalized /\
  getResults lateVoteFinalized 0 = Ok [2; 1; 0] /\
  getTotalVoters lateVoteFinalized 0 = Ok 4 /\
  sum [2; 1; 0] = 3.
Proof.
  split; [vm_compute; reflexivity|]. split; [vm_compute; reflexivity|].
  split; [vm_compute; reflexivity|]. split; [vm_compute; reflexivity|].
  split.
  { assert (Hvoters : map voterOf (sampleBallots ++ [lateBallot])
                      = [alice; bob; carol; dave]) by reflexivity.
    rewrite Hvoters. repeat constructor; rewrite ?elem_of_cons; intros H;
      repeat (destruct H as [H | H]; [discriminate H|]); by apply elem_of_nil in H. }
  repeat split; vm_compute; reflexivity.
Qed.

(** * Further properties of the contract *)

(** ** Invariants of reachable states *)

(** A property of the initial state that every transition out of a
    well-formed state preserves holds in every reachable state. *)
Lemma reachable_invariant (P : State -> Prop) :
  P initialState ->
  (forall s s', storage_ok s -> P s -> transition s s' -> P s') ->
  forall s, reachable s -> P s.
Proof.
  intros Hinit Hpres s [txs <-].
  assert (H : forall txs s0, storage_ok s0 -> P s0 ->
                storage_ok (run s0 txs) /\ P (run s0 txs)).
  { clear txs. induction txs as [|tx txs IH]; intros s0 Hok HP; [auto|].
    rewrite run_cons. apply IH; [by apply step_ok|].
    destruct (step_cases s0 tx) as [-> | Ht]; [exact HP | by eapply Hpres]. }
  apply H; [exact initialState_ok | exact Hinit].
Qed.

Lemma votersOf_cons_other pid e log :
  (forall q v, e <> VoteCast q v) -> votersOf pid (e :: log) = votersOf pid log.
Proof. intros Hne. destruct e; try reflexivity. by destruct (Hne pollId voter). Qed.

Lemma transition_voters_ok s s' : voters_ok s -> transition s s' -> voters_ok s'.
Proof.
  intros [Hrec Hdis Hcnt Hunb] Ht.
  destruct Ht as [env t os st et _ _
                 | env pid e counts' grants' Hex _ Hv _
                 | env pid Hex _ _
                 | rid results stored Hex _ _ _].
  - split.
    + intros q u. apply Hrec.
    + intros q. apply Hdis.
    + intros q Hq. rewrite pollAt_afterCreate. simpl events.
      rewrite votersOf_cons_other by discriminate. case_decide as Hd.
      * subst q. rewrite Hunb by lia. reflexivity.
      * apply Hcnt. simpl in Hq. lia.
    + intros q Hq. simpl in Hq. simpl events.
      rewrite votersOf_cons_other by discriminate. apply Hunb. lia.
  - assert (Hlog : forall q, votersOf q (events (afterVote s env pid counts' grants'))
                             = if pid =? q then msg_sender env :: votersOf q (events s)
                               else votersOf q (events s)) by reflexivity.
    split.
    + intros q u. rewrite votedAt_afterVote, Hlog.
      destruct (N.eqb_spec pid q) as [->|Hne].
      * rewrite elem_of_cons, <- Hrec. case_decide as Hd.
        -- injection Hd as ->. split; auto.
        -- split; [auto|]. intros [-> | H]; [by destruct Hd | exact H].
      * rewrite decide_False by congruence. apply Hrec.
    + intros q. rewrite Hlog. destruct (N.eqb_spec pid q) as [->|Hne]; [|apply Hdis].
      apply NoDup_cons. split; [|apply Hdis].
      rewrite <- Hrec. rewrite Hv. discriminate.
    + intros q Hq. rewrite pollAt_afterVote, Hlog. case_decide as Hd.
      * subst q. rewrite N.eqb_refl. simpl totalVoters. rewrite Hcnt by exact Hex.
        simpl length. lia.
      * destruct (N.eqb_spec pid q); [congruence|]. apply Hcnt. exact Hq.
    + intros q Hq. rewrite Hlog. simpl in Hq.
      destruct (N.eqb_spec pid q); [lia|]. apply Hunb. exact Hq.
  - split.
    + intros q u. apply Hrec.
    + intros q. apply Hdis.
    + intros q Hq. rewrite pollAt_afterRequest. simpl events.
      rewrite votersOf_cons_other by discriminate.
      case_decide as Hd; [subst q|]; by apply Hcnt.
    + intros q Hq. simpl events. rewrite votersOf_cons_other by discriminate.
      by apply Hunb.
  - split.
    + intros q u. apply Hrec.
    + intros q. apply Hdis.
    + intros q Hq. rewrite pollAt_afterCallback. simpl events.
      rewrite votersOf_cons_other by discriminate.
      case_decide as Hd; [subst q|]; by apply Hcnt.
    + intros q Hq. simpl events. rewrite votersOf_cons_other by discriminate.
      by apply Hunb.
Qed.

Lemma reachable_voters_ok s : reachable s -> voters_ok s.
Proof.
  apply (reachable_invariant voters_ok).
  - split.
    + intros pid u. unfold votedAt. simpl. rewrite lookup_empty. simpl.
      split; [discriminate | intros H; by apply elem_of_nil in H].
    + intros pid. simpl. apply NoDup_nil_2.
    + intros pid H. simpl in H. lia.
    + reflexivity.
  - intros s0 s' _ Hv Ht. by eapply transition_voters_ok.
Qed.

(** ** Voters and the log *)

(** X1. In every reachable state and for every existing poll,
    [getTotalVoters] is the number of [VoteCast] events logged for the poll,
    those events name pairwise distinct accounts, and [hasUserVoted] is true
    exactly for the accounts they name. *)
Theorem totalVoters_counts_the_voters (s : State) (pid : N) :
  reachable s ->
  pid < _pollCount s ->
  getTotalVoters s pid = Ok (N.of_nat (length (votersOf pid (events s)))) /\
  NoDup (votersOf pid (events s)) /\
  forall u, hasUserVoted s pid u = Ok (bool_decide (u ∈ votersOf pid (events s))).
Proof.
  intros Hreach Hex. destruct (reachable_voters_ok s Hreach) as [Hrec Hdis Hcnt _].
  split; [|split].
  - unfold getTotalVoters. rewrite pollExists_Ok by exact Hex. simpl.
    by rewrite Hcnt.
  - apply Hdis.
  - intros u. unfold hasUserVoted. rewrite pollExists_Ok by exact Hex. simpl.
    f_equal. destruct (votedAt s pid u) eqn:Hv.
    + symmetry. apply bool_decide_eq_true. by apply Hrec.
    + symmetry. apply bool_decide_eq_false. rewrite <- Hrec. congruence.
Qed.

Lemma votedPoll_reachable : reachable votedPoll.
Proof. exists (take 4 sampleTrace). vm_compute. reflexivity. Qed.

Lemma totalVoters_counts_the_voters_witness :
  getTotalVoters votedPoll 0 = Ok 3 /\
  votersOf 0 (events votedPoll) = [carol; bob; alice] /\
  hasUserVoted votedPoll 0 bob = Ok true /\
  hasUserVoted votedPoll 0 dave = Ok false.
Proof.
  assert (Hex : 0 < _pollCount votedPoll) by (vm_compute; reflexivity).
  destruct (totalVoters_counts_the_voters votedPoll 0 votedPoll_reachable Hex)
    as (Htotal & _ & Hvoted).
  assert (Hlog : votersOf 0 (events votedPoll) = [carol; bob; alice])
    by (vm_compute; reflexivity).
  rewrite Hlog in Htotal. split; [exact Htotal|]. split; [exact Hlog|]. split.
  - rewrite (Hvoted bob), Hlog. vm_compute. reflexivity.
  - rewrite (Hvoted dave), Hlog. vm_compute. reflexivity.
Defined.

(** ** Poll ids *)

Lemma transition_createdIds s s' :
  createdIds (events s) = N.of_nat <$> seq 0 (N.to_nat (_pollCount s)) ->
  transition s s' ->
  createdIds (events s') = N.of_nat <$> seq 0 (N.to_nat (_pollCount s')).
Proof.
  intros Hids [env t os st et _ _ | | |]; simpl; try exact Hids.
  rewrite Hids. replace (N.to_nat (_pollCount s + 1)) with (S (N.to_nat (_pollCount s))) by lia.
  rewrite seq_S, fmap_app. simpl. by rewrite N2Nat.id.
Qed.

(** X2. Poll ids are handed out consecutively from zero and never reused:
    in every reachable state the [PollCreated] events, oldest first, carry
    the ids 0, 1, ..., [getPollCount] - 1. *)
Theorem poll_ids_are_consecutive (s : State) :
  reachable s ->
  createdIds (events s) = N.of_nat <$> seq 0 (N.to_nat (getPollCount s)).
Proof.
  unfold getPollCount. revert s.
  apply (reachable_invariant
           (fun s => createdIds (events s) = N.of_nat <$> seq 0 (N.to_nat (_pollCount s)))).
  - reflexivity.
  - intros s0 s' _ Hids Ht. by apply (transition_createdIds s0 s').
Qed.

Lemma twoPolls_reachable : reachable twoPolls.
Proof. apply reachable_run, finalizedPoll_reachable. Qed.

Lemma poll_ids_are_consecutive_witness :
  reachable twoPolls /\ getPollCount twoPolls = 2 /\ createdIds (events twoPolls) = [0; 1].
Proof.
  split; [exact twoPolls_reachable|]. split; [vm_compute; reflexivity|].
  rewrite (poll_ids_are_consecutive twoPolls twoPolls_reachable).
  vm_compute. reflexivity.
Defined.

(** ** A new poll *)

(** X3. A successful [createPoll] returns the previous poll count as id and
    raises the count by one; [getPollInfo] of the new poll echoes the title,
    the options and the window as given, with the caller as creator, both
    flags false and no voters; its counters are the uninitialised handles,
    one per option; it has no request id, no results and no voter. *)
Theorem createPoll_echoes_its_arguments (s : State) (env : Env)
    (t : string) (os : list string) (st et : N) (s' : State) (pid : N) :
  reachable s ->
  createPoll s env t os st et = Ok (s', pid) ->
  pid = getPollCount s /\
  getPollCount s' = pid + 1 /\
  getPollInfo s' pid = Ok (t, os, st, et, msg_sender env, false, false, 0) /\
  getEncryptedCounts s' pid = Ok (replicate (length os) Uninit) /\
  getRequestId s' pid = Ok 0 /\
  getResults s' pid = Revert "Poll not finalized" /\
  (forall u, hasUserVoted s' pid u = Ok false) /\
  head (events s') = Some (PollCreated pid t os st et (msg_sender env)).
Proof.
  intros Hreach H.
  destruct (reachable_voters_ok s Hreach) as [Hrec _ _ Hunb].
  apply createPoll_Ok_shape in H as (_ & _ & _ & _ & _ & -> & ->).
  assert (Hex : _pollCount s < _pollCount (afterCreate s env t os st et))
    by (simpl; lia).
  assert (Hpoll : pollAt (afterCreate s env t os st et) (_pollCount s)
            = mkPoll t os st et (msg_sender env) false false 0
                (replicate (length os) Uninit) (replicate (length os) 0) 0).
  { rewrite pollAt_afterCreate. by rewrite decide_True. }
  unfold getPollInfo, getEncryptedCounts, getRequestId, getResults, hasUserVoted.
  rewrite !(pollExists_Ok _ _ Hex), Hpoll. simpl.
  rewrite map_toBytes32.
  repeat split; try reflexivity.
  intros u. f_equal. change (votedAt s (_pollCount s) u = false).
  destruct (votedAt s (_pollCount s) u) eqn:Hv; [|reflexivity].
  apply Hrec in Hv. rewrite Hunb in Hv by lia. by apply elem_of_nil in Hv.
Qed.

Lemma createPoll_echoes_its_arguments_witness :
  exists s',
    createPoll finalizedPoll (sampleEnv bob 200) "Lunch" ["Soup"; "Salad"] 300 400
    = Ok (s', 1) /\
    getPollInfo s' 1 = Ok ("Lunch", ["Soup"; "Salad"], 300, 400, bob, false, false, 0) /\
    getEncryptedCounts s' 1 = Ok [Uninit; Uninit] /\
    hasUserVoted s' 1 alice = Ok false.
Proof.
  assert (Hcreate :
    createPoll finalizedPoll (sampleEnv bob 200) "Lunch" ["Soup"; "Salad"] 300 400
    = Ok (afterCreate finalizedPoll (sampleEnv bob 200) "Lunch" ["Soup"; "Salad"] 300 400, 1)).
  { vm_compute. reflexivity. }
  destruct (createPoll_echoes_its_arguments _ _ _ _ _ _ _ _ finalizedPoll_reachable Hcreate)
    as (_ & _ & Hinfo & Hcounts & _ & _ & Hvoted & _).
  eexists. split; [exact Hcreate|]. split; [exact Hinfo|]. split; [exact Hcounts|].
  apply Hvoted.
Defined.

(** ** Which poll a call touches *)

Lemma execute_shape s env call s' :
  execute s env call = Ok s' ->
  match call with
  | CreatePoll t os st et => s' = afterCreate s env t os st et
  | CastVote pid e proof => exists counts' grants', s' = afterVote s env pid counts' grants'
  | RequestFinalization pid => s' = afterRequest s env pid
  | DecryptionCallback rid cts sigs =>
      exists stored, s' = afterCallback s (requestToPollAt s rid) stored
  end.
Proof.
  destruct call as [t os st et | pid e proof | pid | rid cts sigs]; simpl; intros H.
  - apply bind_Ok in H as ([s1 pid] & H1 & [= <-]).
    by apply createPoll_Ok_shape in H1 as (_ & _ & _ & _ & _ & _ & ->).
  - apply vote_Ok_shape in H as (counts' & grants' & H). exists counts', grants'.
    by destruct H as (_ & _ & _ & _ & _ & _ & _ & _ & ->).
  - by apply requestFinalization_Ok_shape in H as (_ & _ & _ & ->).
  - apply bind_Ok in H as ([s1 b] & H1 & [= <-]).
    apply decryptionCallback_Ok_shape in H1 as (results & stored & H).
    exists stored. by destruct H as (_ & _ & _ & _ & _ & _ & _ & ->).
Qed.

(** X4. Polls are independent of each other: a transaction leaves every
    poll other than the one it is aimed at exactly as it was (the new id for
    [createPoll], the named poll for [vote] and [requestFinalization], the
    poll the request id resolves to for [decryptionCallback]), and leaves
    the voter records of those polls alone. *)
Theorem polls_are_independent (s : State) (tx : Env * Call) (q : N) :
  writtenPoll s tx.2 <> q ->
  pollAt (step s tx) q = pollAt s q /\
  forall u, votedAt (step s tx) q u = votedAt s q u.
Proof.
  intros Hne. unfold step. destruct (execute s tx.1 tx.2) as [s'| |] eqn:H; auto.
  apply execute_shape in H. destruct tx as [env call]. simpl in *.
  destruct call as [t os st et | pid e proof | pid | rid cts sigs]; simpl in Hne.
  - subst s'. rewrite pollAt_afterCreate. by rewrite decide_False by congruence.
  - destruct H as (counts' & grants' & ->). rewrite pollAt_afterVote.
    rewrite decide_False by congruence. split; [reflexivity|].
    intros u. rewrite votedAt_afterVote. rewrite decide_False by congruence. reflexivity.
  - subst s'. rewrite pollAt_afterRequest. by rewrite decide_False by congruence.
  - destruct H as (stored & ->). rewrite pollAt_afterCallback.
    by rewrite decide_False by congruence.
Qed.

Lemma polls_are_independent_witness :
  pollAt (step twoPolls (sampleEnv alice 350, CastVote 1 (ballot alice 0) [])) 0
  = pollAt twoPolls 0 /\
  votedAt (step twoPolls (sampleEnv alice 350, CastVote 1 (ballot alice 0) [])) 1 alice = true.
Proof.
  split; [|vm_compute; reflexivity].
  apply (polls_are_independent twoPolls (sampleEnv alice 350, CastVote 1 (ballot alice 0) []) 0).
  simpl. discriminate.
Defined.

(** ** What never changes *)

Lemma transition_metadata s s' pid :
  transition s s' -> pid < _pollCount s ->
  metadata (pollAt s' pid) = metadata (pollAt s pid) /\
  totalVoters (pollAt s pid) <= totalVoters (pollAt s' pid).
Proof.
  intros [env t os st et _ _ | env q e counts' grants' _ _ _ _ | env q _ _ _
         | rid results stored _ _ _ _] Hpid.
  - rewrite pollAt_afterCreate. rewrite decide_False by lia. split; [reflexivity | lia].
  - rewrite pollAt_afterVote. case_decide; [subst q|]; split; try reflexivity; simpl; lia.
  - rewrite pollAt_afterRequest. case_decide; [subst q|]; split; try reflexivity; simpl; lia.
  - rewrite pollAt_afterCallback. case_decide as Hd; [rewrite <- Hd|];
      split; try reflexivity; simpl; lia.
Qed.

(** X5. Title, options, window and creator of a poll are set once: whatever
    transactions follow, they stay as they are, the poll keeps existing, and
    its [totalVoters] never goes down. *)
Theorem poll_metadata_is_immutable (s : State) (pid : N) (txs : list (Env * Call)) :
  pid < _pollCount s ->
  pid < _pollCount (run s txs) /\
  metadata (pollAt (run s txs) pid) = metadata (pollAt s pid) /\
  totalVoters (pollAt s pid) <= totalVoters (pollAt (run s txs) pid).
Proof.
  intros Hpid.
  apply (run_preserves (fun s' => pid < _pollCount s' /\
                          metadata (pollAt s' pid) = metadata (pollAt s pid) /\
                          totalVoters (pollAt s pid) <= totalVoters (pollAt s' pid))).
  - intros s1 s2 Ht (Hex & Hmeta & Htot).
    destruct (transition_metadata s1 s2 pid Ht Hex) as [Hmeta' Htot'].
    apply transition_pollCount in Ht.
    split; [lia|]. split; [congruence | lia].
  - split; [exact Hpid|]. split; [reflexivity | lia].
Qed.

Lemma poll_metadata_is_immutable_witness :
  0 < _pollCount frameworkPoll /\
  metadata (pollAt (run frameworkPoll (drop 1 sampleTrace)) 0)
  = metadata (pollAt frameworkPoll 0).
Proof.
  assert (Hex : 0 < _pollCount frameworkPoll) by (vm_compute; reflexivity).
  split; [exact Hex|].
  exact (proj1 (proj2 (poll_metadata_is_immutable frameworkPoll 0 (drop 1 sampleTrace) Hex))).
Defined.

(** ** Results *)

Lemma transition_frozen s s' pid :
  storage_ok s -> transition s s' ->
  pid < _pollCount s -> finalized (pollAt s pid) = true ->
  pollAt s' pid = pollAt s pid.
Proof.
  intros Hok Ht Hpid Hfin.
  pose proof (finalized_not_pending s pid Hok Hpid Hfin) as Hnp.
  destruct Ht as [env t os st et _ _ | env q e counts' grants' _ Hq _ _
                 | env q _ Hq _ | rid results stored _ Hq _ _].
  - rewrite pollAt_afterCreate. rewrite decide_False by lia. reflexivity.
  - rewrite pollAt_afterVote. rewrite decide_False by congruence. reflexivity.
  - rewrite pollAt_afterRequest. rewrite decide_False by congruence. reflexivity.
  - rewrite pollAt_afterCallback. rewrite decide_False by congruence. reflexivity.
Qed.

Lemma run_frozen txs : forall s pid,
  storage_ok s -> pid < _pollCount s -> finalized (pollAt s pid) = true ->
  pollAt (run s txs) pid = pollAt s pid.
Proof.
  induction txs as [|tx txs IH]; intros s pid Hok Hpid Hfin; [reflexivity|].
  rewrite run_cons.
  assert (Hsame : pollAt (step s tx) pid = pollAt s pid).
  { destruct (step_cases s tx) as [-> | Ht]; [reflexivity|].
    by apply transition_frozen. }
  assert (Hpid' : pid < _pollCount (step s tx)).
  { destruct (step_cases s tx) as [-> | Ht]; [exact Hpid|].
    apply transition_pollCount in Ht. lia. }
  rewrite IH; [exact Hsame | by apply step_ok | exact Hpid' | by rewrite Hsame].
Qed.

Lemma transition_results_ok s s' :
  storage_ok s -> results_ok s -> transition s s' -> results_ok s'.
Proof.
  intros Hok [Hunset Hlogged] Ht.
  assert (Hframe : forall pid, pid < _pollCount s -> finalized (pollAt s pid) = true ->
                     pollAt s' pid = pollAt s pid).
  { intros pid Hpid Hfin. by apply transition_frozen. }
  destruct Ht as [env t os st et _ _ | env q e counts' grants' Hex Hfq _ _
                 | env q Hex Hfq _ | rid results stored Hex Hpend _ _].
  - split; intros pid Hpid; rewrite pollAt_afterCreate; simpl in Hpid.
    + case_decide as Hd; [reflexivity|]. apply Hunset. lia.
    + case_decide as Hd; [discriminate|]. intros Hfin.
      apply list_elem_of_further, Hlogged; [lia | exact Hfin].
  - split; intros pid Hpid; rewrite pollAt_afterVote.
    + case_decide as Hd; [subst pid|]; apply Hunset; exact Hpid.
    + case_decide as Hd; [subst pid|]; intros Hfin;
        apply list_elem_of_further, Hlogged; assumption.
  - split; intros pid Hpid; rewrite pollAt_afterRequest.
    + case_decide as Hd; [subst pid|]; apply Hunset; exact Hpid.
    + case_decide as Hd; [subst pid|]; intros Hfin;
        apply list_elem_of_further, Hlogged; assumption.
  - split; intros pid Hpid; rewrite pollAt_afterCallback.
    + case_decide as Hd; [discriminate|]. apply Hunset. exact Hpid.
    + case_decide as Hd.
      * subst pid. intros _. apply list_elem_of_here.
      * intros Hfin. apply list_elem_of_further, Hlogged; assumption.
Qed.

Lemma reachable_results_ok s : reachable s -> results_ok s.
Proof.
  apply (reachable_invariant results_ok).
  - split; intros pid H; simpl in H; lia.
  - intros s0 s' Hok Hr Ht. by eapply transition_results_ok.
Qed.

(** X6. Results are written once.  In a reachable state, a poll that is not
    finalized has all-zero stored results and [getResults] fails with "Poll
    not finalized"; a finalized poll returns one count per option, the very
    vector its [PollFinalized] event announced, and from then on no
    transaction changes anything of the poll: its whole record, so its
    results, counters and [totalVoters], is frozen. *)
Theorem results_are_written_once (s : State) (pid : N) :
  reachable s ->
  pid < _pollCount s ->
  (finalized (pollAt s pid) = false ->
     getResults s pid = Revert "Poll not finalized" /\
     decryptedCounts (pollAt s pid) = replicate (length (options (pollAt s pid))) 0) /\
  (finalized (pollAt s pid) = true ->
     exists values,
       getResults s pid = Ok values /\
       length values = length (options (pollAt s pid)) /\
       PollFinalized pid values ∈ events s /\
       forall txs,
         pollAt (run s txs) pid = pollAt s pid /\
         getResults (run s txs) pid = Ok values).
Proof.
  intros Hreach Hpid. pose proof (reachable_ok s Hreach) as Hok.
  destruct (reachable_results_ok s Hreach) as [Hunset Hlogged].
  split; intros Hfin.
  - split; [|by apply Hunset].
    unfold getResults. rewrite pollExists_Ok by exact Hpid. simpl. by rewrite Hfin.
  - exists (decryptedCounts (pollAt s pid)).
    destruct Hok as [Hpolls Hlog]. destruct (Hpolls pid Hpid) as [_ _ Hdec _].
    split; [|split; [exact Hdec|split; [by apply Hlogged|]]].
    + unfold getResults. rewrite pollExists_Ok by exact Hpid. simpl. by rewrite Hfin.
    + intros txs.
      assert (Hsame : pollAt (run s txs) pid = pollAt s pid).
      { apply run_frozen; [by split | exact Hpid | exact Hfin]. }
      split; [exact Hsame|].
      unfold getResults. rewrite pollExists_Ok.
      * simpl. rewrite Hsame, Hfin. reflexivity.
      * pose proof (run_pollCount txs s). lia.
Qed.

Lemma results_are_written_once_witness :
  getResults pendingPoll 0 = Revert "Poll not finalized" /\
  decryptedCounts (pollAt pendingPoll 0) = [0; 0; 0] /\
  getResults twoPolls 0 = Ok [2; 1; 0].
Proof.
  assert (Hex : 0 < _pollCount pendingPoll) by (vm_compute; reflexivity).
  assert (Hex' : 0 < _pollCount finalizedPoll) by (vm_compute; reflexivity).
  destruct (results_are_written_once pendingPoll 0 pendingPoll_reachable Hex)
    as [Hunset _].
  destruct (results_are_written_once finalizedPoll 0 finalizedPoll_reachable Hex')
    as [_ Hset].
  destruct Hunset as [Hfail Hzero]; [vm_compute; reflexivity|].
  destruct Hset as (values & Hres & _ & _ & Hkept); [vm_compute; reflexivity|].
  split; [exact Hfail|]. split.
  - rewrite Hzero. vm_compute. reflexivity.
  - assert (Hvalues : getResults finalizedPoll 0 = Ok [2; 1; 0])
      by (vm_compute; reflexivity).
    rewrite Hres in Hvalues. injection Hvalues as <-.
    apply (Hkept [(sampleEnv bob 200, CreatePoll "Lunch" ["Soup"; "Salad"] 300 400);
                  (sampleEnv bob 201, CreatePoll EmptyString ["Soup"; "Salad"] 300 400)]).
Defined.

(** ** When a vote is accepted *)

(** X7. In a reachable state [vote] is accepted exactly when the poll
    exists, the block time lies in the closed window from [startTime] to
    [endTime], the poll is not finalized, the caller has not voted on it, the
    input proof verifies for the caller, and [totalVoters] can still be
    incremented; nothing else is looked at (in particular not the
    [decryptionPending] flag).  The loop over the options never runs out of
    the counter array: the only panic left is the overflow of [totalVoters]. *)
Theorem vote_is_accepted_iff (s : State) (env : Env) (pid : N)
    (e : externalEuint32) (proof : bytes) :
  reachable s ->
  ((exists s', vote s env pid e proof = Ok s') <->
   pid < _pollCount s /\
   startTime (pollAt s pid) <= block_timestamp env <= endTime (pollAt s pid) /\
   finalized (pollAt s pid) = false /\
   votedAt s pid (msg_sender env) = false /\
   verifyInput e proof (msg_sender env) = true /\
   totalVoters (pollAt s pid) < uint256_max) /\
  (forall code, vote s env pid e proof = Panic code ->
     code = 17 /\ uint256_max <= totalVoters (pollAt s pid)).
Proof.
  intros Hreach. destruct (reachable_ok s Hreach) as [Hpolls _].
  split; [split|].
  - intros [s' H]. apply vote_Ok_shape in H as (? & ? & H). tauto.
  - intros (Hex & [Hst Het] & Hfin & Hv & Hproof & Hmax).
    destruct (Hpolls pid Hex) as [_ Henc _ _].
    apply vote_accepts; auto. lia.
  - intros code H. unfold vote, pollExists, FHE_fromExternal in H.
    destruct (N.ltb_spec pid (_pollCount s)) as [Hex|]; [|discriminate].
    destruct (startTime (pollAt s pid) <=? block_timestamp env); [|discriminate].
    destruct (block_timestamp env <=? endTime (pollAt s pid)); [|discriminate].
    destruct (finalized (pollAt s pid)); [discriminate|].
    destruct (votedAt s pid (msg_sender env)); [discriminate|].
    destruct (verifyInput e proof (msg_sender env)); [|discriminate].
    destruct (Hpolls pid Hex) as [_ Henc _ _].
    destruct (voteLoop_total (Input e) env (creator (pollAt s pid))
                (length (options (pollAt s pid))) 0
                (encryptedCounts (pollAt s pid)) (acl s)) as [st Hst]; [lia|].
    simpl in H. rewrite Hst in H. simpl in H. unfold checked_succ in H.
    destruct (N.ltb_spec (totalVoters (pollAt s pid)) uint256_max) as [|Hge];
      [discriminate|].
    simpl in H. injection H as <-. split; [reflexivity | exact Hge].
Qed.

Lemma vote_is_accepted_iff_witness :
  (exists s', vote frameworkPoll (sampleEnv alice 50) 0 (ballot alice 2) [] = Ok s') /\
  (exists s', vote frameworkPoll (sampleEnv alice 1000) 0 (ballot alice 2) [] = Ok s') /\
  ~ (exists s', vote frameworkPoll (sampleEnv alice 1001) 0 (ballot alice 2) [] = Ok s') /\
  ~ (exists s', vote frameworkPoll (sampleEnv alice 100) 0 (ballot bob 2) [] = Ok s').
Proof.
  split; [|split; [|split]].
  - apply (vote_is_accepted_iff frameworkPoll (sampleEnv alice 50) 0 (ballot alice 2) []
             frameworkPoll_reachable).
    repeat split; vm_compute; (reflexivity || discriminate).
  - apply (vote_is_accepted_iff frameworkPoll (sampleEnv alice 1000) 0 (ballot alice 2) []
             frameworkPoll_reachable).
    repeat split; vm_compute; (reflexivity || discriminate).
  - intros H.
    apply (vote_is_accepted_iff frameworkPoll (sampleEnv alice 1001) 0 (ballot alice 2) []
             frameworkPoll_reachable) in H.
    destruct H as (_ & [_ Hend] & _). vm_compute in Hend. by apply Hend.
  - intros H.
    apply (vote_is_accepted_iff frameworkPoll (sampleEnv alice 100) 0 (ballot bob 2) []
             frameworkPoll_reachable) in H.
    destruct H as (_ & _ & _ & _ & Hproof & _). vm_compute in Hproof. discriminate Hproof.
Defined.

(** ** Reading one counter *)

(** X8. In a reachable state [getEncryptedCounts] of an existing poll has
    one handle per option, and [getEncryptedCount] returns its entry at
    [optionIndex] when the index is below the number of options and fails
    with "Invalid option index" otherwise; it never panics. *)
Theorem getEncryptedCount_is_bounded (s : State) (pid : N) (optionIndex : N) :
  reachable s ->
  pid < _pollCount s ->
  exists counts,
    getEncryptedCounts s pid = Ok counts /\
    length counts = length (options (pollAt s pid)) /\
    (optionIndex < N.of_nat (length counts) ->
       exists c, counts !! N.to_nat optionIndex = Some c /\
                 getEncryptedCount s pid optionIndex = Ok c) /\
    (N.of_nat (length counts) <= optionIndex ->
       getEncryptedCount s pid optionIndex = Revert "Invalid option index").
Proof.
  intros Hreach Hex. destruct (reachable_ok s Hreach) as [Hpolls _].
  destruct (Hpolls pid Hex) as [_ Henc _ _].
  exists (encryptedCounts (pollAt s pid)).
  unfold getEncryptedCounts, getEncryptedCount. rewrite !pollExists_Ok by exact Hex.
  simpl. rewrite map_toBytes32.
  split; [reflexivity|]. split; [exact Henc|]. split.
  - intros Hlt.
    destruct (lookup_lt_is_Some_2 (encryptedCounts (pollAt s pid)) (N.to_nat optionIndex))
      as [c Hc]; [lia|].
    exists c. split; [exact Hc|].
    apply N.ltb_lt in Hlt. rewrite Hlt. simpl. by rewrite Hc.
  - intros Hge. apply N.ltb_ge in Hge. by rewrite Hge.
Qed.

Lemma getEncryptedCount_is_bounded_witness :
  (decrypt <$> match getEncryptedCount votedPoll 0 0 with Ok c => Some c | _ => None end)
  = Some 2 /\
  getEncryptedCount votedPoll 0 3 = Revert "Invalid option index".
Proof.
  assert (Hex : 0 < _pollCount votedPoll) by (vm_compute; reflexivity).
  destruct (getEncryptedCount_is_bounded votedPoll 0 3 votedPoll_reachable Hex)
    as (counts & Hcounts & Hlen & _ & Hout).
  split; [vm_compute; reflexivity|].
  apply Hout. rewrite Hlen. vm_compute. discriminate.
Defined.

(** ** When the callback is accepted, and what it commits *)

Lemma pendingPollOf_Some s rid pid :
  pendingPollOf s rid = Some pid <->
  requestToPollAt s rid = pid /\ pid < _pollCount s /\
  decryptionPending (pollAt s pid) = true /\ requestId (pollAt s pid) = rid.
Proof.
  unfold pendingPollOf. split.
  - destruct (N.ltb_spec (requestToPollAt s rid) (_pollCount s)) as [Hex|];
      [|discriminate].
    destruct (decryptionPending (pollAt s (requestToPollAt s rid))) eqn:Hp;
      [|discriminate].
    destruct (N.eqb_spec (requestId (pollAt s (requestToPollAt s rid))) rid) as [Hr|];
      [|discriminate].
    intros [= <-]. auto.
  - intros (<- & Hex & Hp & Hr). apply N.ltb_lt in Hex. apply N.eqb_eq in Hr.
    by rewrite Hex, Hp, Hr.
Qed.

(** X9. In a reachable state [decryptionCallback] is accepted exactly when
    the request id stands for a poll pending under that id and the payload
    decodes to as many values as the poll has options; the caller and the
    signatures play no part.  An accepted callback returns true, stores
    exactly the decoded values as the poll's results, marks the poll
    finalized and no longer pending, announces the values in
    [PollFinalized], and leaves the poll's request id, counters, voters and
    every other poll as they were. *)
Theorem decryptionCallback_is_accepted_iff (s : State) (env : Env)
    (rid : N) (cts : payload) (sigs : list bytes) :
  reachable s ->
  ((exists r, decryptionCallback s env rid cts sigs = Ok r) <->
   (exists pid values,
      pendingPollOf s rid = Some pid /\ cts = Encoded values /\
      length values = length (options (pollAt s pid)))) /\
  (forall s' b,
     decryptionCallback s env rid cts sigs = Ok (s', b) ->
     exists pid values,
       pendingPollOf s rid = Some pid /\ cts = Encoded values /\ b = true /\
       getResults s' pid = Ok values /\
       lifecycleState (pollAt s' pid) = Finalized /\
       head (events s') = Some (PollFinalized pid values) /\
       getRequestId s' pid = Ok rid /\
       encryptedCounts (pollAt s' pid) = encryptedCounts (pollAt s pid) /\
       totalVoters (pollAt s' pid) = totalVoters (pollAt s pid) /\
       hasVoted s' = hasVoted s /\
       forall q, q <> pid -> pollAt s' q = pollAt s q).
Proof.
  intros Hreach. destruct (reachable_ok s Hreach) as [Hpolls _].
  assert (Hshape : forall s' b,
            decryptionCallback s env rid cts sigs = Ok (s', b) ->
            exists values,
              pendingPollOf s rid = Some (requestToPollAt s rid) /\
              cts = Encoded values /\ b = true /\
              length values = length (options (pollAt s (requestToPollAt s rid))) /\
              s' = afterCallback s (requestToPollAt s rid) values).
  { intros s' b H.
    apply decryptionCallback_Ok_shape in H
      as (results & stored & Hex & Hpend & Hrid & -> & Hlen & Hloop & -> & ->).
    destruct (Hpolls _ Hex) as [_ Henc Hdec _].
    apply storeLoop_all in Hloop as ->; [|congruence].
    exists results. split; [by apply pendingPollOf_Some|].
    repeat split; congruence. }
  split; [split|].
  - intros [[s' b] H]. apply Hshape in H as (values & Hp & Hc & _ & Hlen & _).
    eauto.
  - intros (pid & values & Hp & -> & Hlen).
    apply pendingPollOf_Some in Hp as (Hmap & Hex & Hpend & Hrid).
    destruct (Hpolls pid Hex) as [_ Henc Hdec _].
    eexists. subst pid. apply decryptionCallback_accepts; auto; congruence.
  - intros s' b H. apply Hshape in H as (values & Hp & -> & -> & Hlen & ->).
    pose proof Hp as Hp'. apply pendingPollOf_Some in Hp' as (_ & Hex & _ & Hrid).
    set (pid := requestToPollAt s rid) in *.
    assert (Hpoll : pollAt (afterCallback s pid values) pid
              = mkPoll (title (pollAt s pid)) (options (pollAt s pid))
                  (startTime (pollAt s pid)) (endTime (pollAt s pid))
                  (creator (pollAt s pid)) true false (requestId (pollAt s pid))
                  (encryptedCounts (pollAt s pid)) values (totalVoters (pollAt s pid))).
    { rewrite pollAt_afterCallback. by rewrite decide_True. }
    exists pid, values.
    unfold getResults, getRequestId.
    rewrite !(pollExists_Ok (afterCallback s pid values) pid) by exact Hex.
    rewrite Hpoll. simpl. rewrite Hrid.
    split; [exact Hp|]. repeat split; try reflexivity.
    intros q Hq. rewrite pollAt_afterCallback. by rewrite decide_False.
Qed.

Lemma decryptionCallback_is_accepted_iff_witness :
  (exists r, decryptionCallback pendingPoll (sampleEnv mallory 105) 7
               (Encoded [5; 6; 7]) [] = Ok r) /\
  ~ (exists r, decryptionCallback pendingPoll (sampleEnv oracle 105) 7 Malformed [] = Ok r).
Proof.
  destruct (decryptionCallback_is_accepted_iff pendingPoll (sampleEnv mallory 105) 7
              (Encoded [5; 6; 7]) [] pendingPoll_reachable) as [[_ Haccept] _].
  destruct (decryptionCallback_is_accepted_iff pendingPoll (sampleEnv oracle 105) 7
              Malformed [] pendingPoll_reachable) as [[Hreject _] _].
  split.
  - apply Haccept. exists 0, [5; 6; 7].
    split; [vm_compute; reflexivity|]. split; [reflexivity | vm_compute; reflexivity].
  - intros H. apply Hreject in H as (pid & values & _ & Hc & _). discriminate Hc.
Defined.

(** ** Leaving the pending state *)

(** X10. There is no way around the callback: a poll that is
    DecryptionPending stays so under every transaction except a
    [decryptionCallback] that carries the poll's own request id, still
    mapped to this poll, and as many values as the poll has options, which
    finalizes it with these values.  In particular [requestFinalization]
    cannot be repeated and nothing cancels a request. *)
Theorem pending_poll_waits_for_its_callback (s : State) (pid : N) (tx : Env * Call) :
  reachable s ->
  pid < _pollCount s ->
  lifecycleState (pollAt s pid) = DecryptionPending ->
  lifecycleState (pollAt (step s tx) pid) = DecryptionPending \/
  exists values sigs,
    tx.2 = DecryptionCallback (requestId (pollAt s pid)) (Encoded values) sigs /\
    requestToPollAt s (requestId (pollAt s pid)) = pid /\
    length values = length (options (pollAt s pid)) /\
    lifecycleState (pollAt (step s tx) pid) = Finalized /\
    getResults (step s tx) pid = Ok values.
Proof.
  intros Hreach Hpid Hlife. destruct (reachable_ok s Hreach) as [Hpolls _].
  enough (Hcases :
    pollAt (step s tx) pid = pollAt s pid \/
    lifecycleState (pollAt (step s tx) pid) = DecryptionPending \/
    exists values sigs,
      tx.2 = DecryptionCallback (requestId (pollAt s pid)) (Encoded values) sigs /\
      requestToPollAt s (requestId (pollAt s pid)) = pid /\
      length values = length (options (pollAt s pid)) /\
      lifecycleState (pollAt (step s tx) pid) = Finalized /\
      getResults (step s tx) pid = Ok values).
  { destruct Hcases as [Hsame | [Hstay | Hdone]]; [left | by left | by right].
    by rewrite Hsame. }
  assert (Hflags : finalized (pollAt s pid) = false
                   /\ decryptionPending (pollAt s pid) = true).
  { unfold lifecycleState in Hlife.
    destruct (finalized (pollAt s pid)); [discriminate|].
    destruct (decryptionPending (pollAt s pid)); [auto | discriminate]. }
  destruct Hflags as [Hfin Hpend].
  destruct tx as [env call]. unfold step. simpl.
  destruct (execute s env call) as [s'| |] eqn:H; auto.
  destruct call as [t os st et | q e proof | q | rid cts sigs].
  - apply execute_shape in H. simpl in H. subst s'. left.
    rewrite pollAt_afterCreate. by rewrite decide_False by lia.
  - apply execute_shape in H as (counts' & grants' & ->).
    right. left. rewrite pollAt_afterVote.
    case_decide as Hd; [subst q|]; exact Hlife.
  - simpl in H. apply requestFinalization_Ok_shape in H as (_ & _ & Hq & ->).
    left. rewrite pollAt_afterRequest. rewrite decide_False; [reflexivity|].
    intros ->. congruence.
  - simpl in H. apply bind_Ok in H as ([s1 b] & H1 & [= <-]).
    apply decryptionCallback_Ok_shape in H1
      as (results & stored & Hex & _ & Hrid & -> & Hlen & Hloop & _ & ->).
    destruct (decide (pid = requestToPollAt s rid)) as [Heq|Hne].
    + right. right. rewrite <- Heq in Hex, Hrid, Hlen, Hloop |- *.
      destruct (Hpolls pid Hpid) as [_ Henc Hdec _].
      apply storeLoop_all in Hloop as ->; [|congruence].
      exists results, sigs. simpl. rewrite Hrid.
      split; [reflexivity|]. split; [by symmetry|]. split; [congruence|].
      unfold getResults. rewrite pollExists_Ok by exact Hpid. simpl.
      rewrite pollAt_afterCallback. rewrite decide_True by reflexivity.
      split; reflexivity.
    + left. simpl. rewrite pollAt_afterCallback. by rewrite decide_False.
Qed.

Lemma pending_poll_waits_for_its_callback_witness :
  reachable pendingPoll /\
  lifecycleState (pollAt pendingPoll 0) = DecryptionPending /\
  lifecycleState
    (pollAt (step pendingPoll (sampleEnv deployer 110, RequestFinalization 0)) 0)
  = DecryptionPending.
Proof.
  assert (Hex : 0 < _pollCount pendingPoll) by (vm_compute; reflexivity).
  assert (Hlife : lifecycleState (pollAt pendingPoll 0) = DecryptionPending)
    by (vm_compute; reflexivity).
  split; [exact pendingPoll_reachable|]. split; [exact Hlife|].
  destruct (pending_poll_waits_for_its_callback pendingPoll 0
              (sampleEnv deployer 110, RequestFinalization 0)
              pendingPoll_reachable Hex Hlife) as [Hstay | Hdone].
  - exact Hstay.
  - destruct Hdone as (values & sigs & Hcall & _). discriminate Hcall.
Defined.

(** ** One ballot, at most one count *)

Lemma sum_cons (x : N) (l : list N) : sum (x :: l) = x + sum l.
Proof. reflexivity. Qed.

(** When entry [i] grows by at most [ind (k + i)], the sum grows by at most
    the sum of [ind] over the indices. *)
Lemma sum_bumped (ind : nat -> N) (d : list N) : forall (d' : list N) (k : nat),
  length d' = length d ->
  (forall i x, d !! i = Some x ->
     exists x', d' !! i = Some x' /\ x' <= x + ind (k + i)%nat) ->
  sum d' <= sum d + sum (map ind (seq k (length d))).
Proof.
  induction d as [|x d IH]; intros d' k Hlen Hpt.
  - destruct d'; [simpl; lia | discriminate].
  - destruct d' as [|x' d']; [discriminate|].
    destruct (Hpt 0%nat x eq_refl) as (y & Hy & Hle). injection Hy as <-.
    rewrite Nat.add_0_r in Hle.
    specialize (IH d' (S k)). simpl length. simpl seq. simpl map.
    rewrite !sum_cons.
    assert (Htail : sum d' <= sum d + sum (map ind (seq (S k) (length d)))).
    { apply IH; [simpl in Hlen; lia|].
      intros i y Hi. destruct (Hpt (S i) y Hi) as (y' & Hy' & Hle').
      exists y'. split; [exact Hy'|]. by rewrite Nat.add_succ_comm. }
    lia.
Qed.

Lemma transition_tally s s' :
  storage_ok s ->
  (forall pid, pid < _pollCount s ->
     sum (decrypt <$> encryptedCounts (pollAt s pid)) <= totalVoters (pollAt s pid)) ->
  transition s s' ->
  forall pid, pid < _pollCount s' ->
    sum (decrypt <$> encryptedCounts (pollAt s' pid)) <= totalVoters (pollAt s' pid).
Proof.
  intros [Hpolls _] Hinv Ht pid Hpid.
  destruct Ht as [env t os st et _ _ | env q e counts' grants' Hex _ _ Hloop
                 | env q Hex _ _ | rid results stored Hex _ _ _].
  - rewrite pollAt_afterCreate. case_decide as Hd.
    + simpl. induction (length os); [reflexivity | assumption].
    + apply Hinv. simpl in Hpid. lia.
  - rewrite pollAt_afterVote. case_decide as Hd; [subst q | by apply Hinv].
    simpl. pose proof (Hpolls pid Hex) as Hpoll. destruct (Hpoll) as [_ Henc _ _].
    apply voteLoop_Ok in Hloop as (_ & Hlen & Hin & _).
    set (ind := fun i : nat => if decrypt (Input e) =? N.of_nat i then 1 else 0).
    assert (Hsum : sum (decrypt <$> counts')
                   <= sum (decrypt <$> encryptedCounts (pollAt s pid))
                      + sum (map ind (seq 0 (length (decrypt <$> encryptedCounts (pollAt s pid)))))).
    { apply sum_bumped; [by rewrite !length_fmap|].
      intros i x Hx. rewrite list_lookup_fmap in Hx.
      destruct (encryptedCounts (pollAt s pid) !! i) as [c|] eqn:Hc; [|discriminate].
      injection Hx as <-.
      pose proof (lookup_lt_Some _ _ _ Hc) as Hi. rewrite Henc in Hi.
      exists (decrypt (bump (Input e) i c)). split.
      - rewrite list_lookup_fmap, Hin by lia. rewrite Hc. reflexivity.
      - rewrite decrypt_bump by (by apply (small_index (pollAt s pid))).
        simpl. apply N.Div0.mod_le. }
    rewrite length_fmap, Henc in Hsum. unfold ind in Hsum.
    rewrite sum_indicator in Hsum. specialize (Hinv pid Hex).
    destruct (_ <? _) in Hsum; lia.
  - rewrite pollAt_afterRequest. case_decide as Hd; [subst q|]; by apply Hinv.
  - rewrite pollAt_afterCallback. case_decide as Hd; [subst pid|]; by apply Hinv.
Qed.

Lemma reachable_tally s :
  reachable s ->
  forall pid, pid < _pollCount s ->
    sum (decrypt <$> encryptedCounts (pollAt s pid)) <= totalVoters (pollAt s pid).
Proof.
  revert s.
  apply (reachable_invariant
           (fun s => forall pid, pid < _pollCount s ->
              sum (decrypt <$> encryptedCounts (pollAt s pid))
              <= totalVoters (pollAt s pid))).
  - intros pid H. simpl in H. lia.
  - intros s0 s' Hok Hinv Ht. by apply (transition_tally s0 s').
Qed.

(** X11. A ballot adds to at most one option: in every reachable state the
    cleartexts of a poll's counters add up to no more than [totalVoters]. *)
Theorem tally_never_exceeds_voters (s : State) (pid : N) :
  reachable s ->
  pid < _pollCount s ->
  sum (decrypt <$> encryptedCounts (pollAt s pid)) <= totalVoters (pollAt s pid).
Proof. intros Hreach. by apply reachable_tally. Qed.

Lemma tally_never_exceeds_voters_witness :
  reachable lateVote /\ 0 < _pollCount lateVote /\
  sum (decrypt <$> encryptedCounts (pollAt lateVote 0)) <= 4.
Proof.
  assert (Hreach : reachable lateVote).
  { apply (reachable_run pendingPoll [(sampleEnv dave 105, CastVote 0 (ballot dave 2) [])]).
    exact pendingPoll_reachable. }
  assert (Hex : 0 < _pollCount lateVote) by (vm_compute; reflexivity).
  split; [exact Hreach|]. split; [exact Hex|].
  pose proof (tally_never_exceeds_voters lateVote 0 Hreach Hex) as H.
  assert (Htotal : totalVoters (pollAt lateVote 0) = 4) by (vm_compute; reflexivity).
  rewrite Htotal in H. exact H.
Defined.

(** ** Who is granted what *)

Lemma voteLoop_grants voteIndex env pollCreator m : forall k counts grants counts' grants',
  foldM (voteStep voteIndex env pollCreator) (seq k m) (counts, grants)
  = Ok (counts', grants') ->
  forall h a, (h, a) ∈ grants' ->
    (h, a) ∈ grants \/
    ((a = pollCreator \/ a = msg_sender env \/ a = this env)
     /\ exists x y, h = Add x y).
Proof.
  induction m as [|m IH]; intros k counts grants counts' grants' H h a Hin.
  - simpl in H. injection H as <- <-. by left.
  - simpl in H. apply bind_Ok in H as ([counts1 grants1] & H1 & H).
    apply voteStep_Ok in H1 as (c & _ & -> & ->).
    destruct (IH _ _ _ _ _ H h a Hin) as [Hold | Hnew]; [|by right].
    rewrite !elem_of_cons in Hold.
    destruct Hold as [[= -> ->] | [[= -> ->] | [[= -> ->] | Hold]]]; [| | | by left];
      right; (split; [auto | unfold bump, FHE_add; eauto]).
Qed.

Lemma transition_granted_sums s s' :
  (forall h a, (h, a) ∈ acl s -> exists x y, h = Add x y) ->
  transition s s' ->
  forall h a, (h, a) ∈ acl s' -> exists x y, h = Add x y.
Proof.
  intros Hinv [env t os st et _ _ | env q e counts' grants' _ _ _ Hloop | | ] h a Hin;
    try (by apply (Hinv h a)).
  simpl in Hin. destruct (voteLoop_grants _ _ _ _ _ _ _ _ _ Hloop h a Hin) as [Hold | [_ Hnew]];
    [by apply (Hinv h a) | exact Hnew].
Qed.

(** X12. Individual ballots are never opened: in every reachable state each
    grant of the access-control list is on a ciphertext produced by the
    homomorphic addition of a vote, so nobody (not the creator, not the
    voter, not the contract) holds a permission on an encrypted choice as it
    was submitted, nor on the empty counter of a poll without votes. *)
Theorem ballots_are_never_opened (s : State) :
  reachable s ->
  (forall h a, (h, a) ∈ acl s -> exists x y, h = Add x y) /\
  (forall e a, isAllowed (acl s) (Input e) a = false) /\
  (forall a, isAllowed (acl s) Uninit a = false).
Proof.
  intros Hreach.
  assert (Hsums : forall h a, (h, a) ∈ acl s -> exists x y, h = Add x y).
  { revert s Hreach.
    apply (reachable_invariant
             (fun s => forall h a, (h, a) ∈ acl s -> exists x y, h = Add x y)).
    - intros h a H. by apply elem_of_nil in H.
    - intros s0 s' _ Hinv Ht. by apply (transition_granted_sums s0 s'). }
  split; [exact Hsums|]. split.
  - intros e a. apply bool_decide_eq_false. intros H.
    destruct (Hsums _ _ H) as (x & y & Heq). discriminate Heq.
  - intros a. apply bool_decide_eq_false. intros H.
    destruct (Hsums _ _ H) as (x & y & Heq). discriminate Heq.
Qed.

Lemma ballots_are_never_opened_witness :
  reachable votedPoll /\
  isAllowed (acl votedPoll) (Input (ballot alice 0)) deployer = false /\
  isAllowed (acl votedPoll) (Input (ballot alice 0)) alice = false.
Proof.
  destruct (ballots_are_never_opened votedPoll votedPoll_reachable) as (_ & Hinput & _).
  split; [exact votedPoll_reachable|]. split; apply Hinput.
Defined.

Lemma transition_participant s s' a :
  transition s s' -> participant s a -> participant s' a.
Proof.
  intros Ht (pid & Hpid & Hpart). exists pid.
  destruct (transition_metadata s s' pid Ht Hpid) as [Hmeta _].
  pose proof (transition_pollCount s s' Ht).
  split; [lia|]. destruct Hpart as [Hv | Hc].
  - left. by apply (transition_voted s s').
  - right. unfold metadata in Hmeta. congruence.
Qed.

Lemma step_grants_participants c s tx :
  this tx.1 = c ->
  (forall h a, (h, a) ∈ acl s -> a = c \/ participant s a) ->
  forall h a, (h, a) ∈ acl (step s tx) -> a = c \/ participant (step s tx) a.
Proof.
  intros Hthis Hinv h a Hin.
  assert (Hkeep : forall s', transition s s' -> (h, a) ∈ acl s -> a = c \/ participant s' a).
  { intros s' Ht Hold. destruct (Hinv h a Hold) as [-> | Hp]; [by left|].
    right. by apply (transition_participant s s'). }
  destruct tx as [env call]. simpl in Hthis. unfold step in *. simpl in *.
  destruct (execute s env call) as [s'| |] eqn:H; try (by apply (Hinv h a)).
  pose proof (execute_transition _ _ _ _ H) as Ht.
  destruct call as [t os st et | pid e proof | pid | rid cts sigs].
  - apply Hkeep; [exact Ht|]. apply execute_shape in H. subst s'. exact Hin.
  - simpl in H. apply vote_Ok_shape in H
      as (counts' & grants' & Hex & _ & _ & _ & _ & _ & _ & Hloop & ->).
    simpl in Hin.
    destruct (voteLoop_grants _ _ _ _ _ _ _ _ _ Hloop h a Hin) as [Hold | [Hwho _]];
      [by apply Hkeep|].
    destruct Hwho as [-> | [-> | ->]]; [right | right | by left]; exists pid.
    + split; [exact Hex|]. right. rewrite pollAt_afterVote. by rewrite decide_True.
    + split; [exact Hex|]. left. rewrite votedAt_afterVote. by rewrite decide_True.
  - apply Hkeep; [exact Ht|]. apply execute_shape in H. subst s'. exact Hin.
  - apply Hkeep; [exact Ht|]. apply execute_shape in H as (stored & ->). exact Hin.
Qed.

(** X13. Permissions go to participants only: along any sequence of
    transactions sent to the contract at address [c], every grant in the
    access-control list is to [c] itself, to an account that has voted on
    some poll, or to the creator of some poll. *)
Theorem grants_go_to_participants (c : address) (txs : list (Env * Call)) :
  Forall (fun tx => this tx.1 = c) txs ->
  forall h a,
    (h, a) ∈ acl (run initialState txs) ->
    a = c \/ participant (run initialState txs) a.
Proof.
  intros Hthis.
  enough (H : forall s,
            (forall h a, (h, a) ∈ acl s -> a = c \/ participant s a) ->
            forall h a, (h, a) ∈ acl (run s txs) -> a = c \/ participant (run s txs) a).
  { apply H. intros h a Hin. by apply elem_of_nil in Hin. }
  induction Hthis as [|tx txs Htx _ IH]; intros s Hinv; [exact Hinv|].
  rewrite run_cons. apply IH. by apply step_grants_participants.
Qed.

Lemma grants_go_to_participants_witness :
  Forall (fun tx => this tx.1 = 4096) sampleTrace /\
  forall h a,
    (h, a) ∈ acl (run initialState sampleTrace) ->
    a = 4096 \/ participant (run initialState sampleTrace) a.
Proof.
  assert (Hthis : Forall (fun tx => this tx.1 = 4096) sampleTrace)
    by (repeat constructor).
  split; [exact Hthis|].
  exact (grants_go_to_participants 4096 sampleTrace Hthis).
Defined.

(** ** One decryption request per poll *)

Lemma requestsOf_cons_other pid e log :
  (forall q r, e <> FinalizationRequested q r) ->
  requestsOf pid (e :: log) = requestsOf pid log.
Proof. intros Hne. destruct e; try reflexivity. by destruct (Hne pollId requestId0). Qed.

Lemma transition_requests s s' :
  storage_ok s ->
  (forall pid, requestsOf pid (events s)
               = if (pid <? _pollCount s)
                    && (finalized (pollAt s pid) || decryptionPending (pollAt s pid))
                 then 1%nat else 0%nat) ->
  transition s s' ->
  forall pid, requestsOf pid (events s')
              = if (pid <? _pollCount s')
                   && (finalized (pollAt s' pid) || decryptionPending (pollAt s' pid))
                then 1%nat else 0%nat.
Proof.
  intros [Hpolls _] Hinv Ht pid.
  destruct Ht as [env t os st et _ _ | env q e counts' grants' _ _ _ _
                 | env q Hex Hfin Hpend | rid results stored Hex Hpend _ _].
  - simpl events. rewrite requestsOf_cons_other by discriminate.
    rewrite Hinv, pollAt_afterCreate. simpl _pollCount. case_decide as Hd.
    + subst pid. rewrite N.ltb_irrefl. simpl. by destruct (_ <? _).
    + destruct (N.ltb_spec pid (_pollCount s)), (N.ltb_spec pid (_pollCount s + 1));
        try lia; reflexivity.
  - simpl events. rewrite requestsOf_cons_other by discriminate.
    rewrite Hinv, pollAt_afterVote. case_decide; [subst q|]; reflexivity.
  - change (events (afterRequest s env q))
      with (FinalizationRequested q (oracle_requestId env) :: events s).
    cbn [requestsOf]. rewrite Hinv, pollAt_afterRequest. simpl _pollCount.
    destruct (N.eqb_spec q pid) as [->|Hne].
    + rewrite decide_True by reflexivity. simpl. rewrite Hfin, Hpend.
      apply N.ltb_lt in Hex. rewrite Hex. reflexivity.
    + rewrite decide_False by congruence. reflexivity.
  - simpl events. rewrite requestsOf_cons_other by discriminate.
    rewrite Hinv, pollAt_afterCallback. case_decide as Hd; [|reflexivity].
    subst pid. simpl. rewrite Hpend, orb_true_r. reflexivity.
Qed.

(** X15. A poll is sent for decryption at most once: in every reachable
    state the log holds exactly one [FinalizationRequested] for a poll that
    is DecryptionPending or Finalized, and none for a poll that is Open or
    does not exist. *)
Theorem one_decryption_request_per_poll (s : State) (pid : N) :
  reachable s ->
  requestsOf pid (events s)
  = if (pid <? _pollCount s)
       && (finalized (pollAt s pid) || decryptionPending (pollAt s pid))
    then 1%nat else 0%nat.
Proof.
  intros Hreach. revert pid. revert s Hreach.
  apply (reachable_invariant
           (fun s => forall pid,
              requestsOf pid (events s)
              = if (pid <? _pollCount s)
                   && (finalized (pollAt s pid) || decryptionPending (pollAt s pid))
                then 1%nat else 0%nat)).
  - intros [|p]; reflexivity.
  - intros s0 s' Hok Hinv Ht. by apply (transition_requests s0 s').
Qed.

Lemma one_decryption_request_per_poll_witness :
  reachable twoPolls /\
  requestsOf 0 (events twoPolls) = 1%nat /\ requestsOf 1 (events twoPolls) = 0%nat.
Proof.
  split; [exact twoPolls_reachable|]. split.
  - rewrite (one_decryption_request_per_poll twoPolls 0 twoPolls_reachable).
    vm_compute. reflexivity.
  - rewrite (one_decryption_request_per_poll twoPolls 1 twoPolls_reachable).
    vm_compute. reflexivity.
Defined.

(** ** When finalization can be requested *)

Lemma reachable_granted_sums s :
  reachable s -> forall h a, (h, a) ∈ acl s -> exists x y, h = Add x y.
Proof.
  revert s.
  apply (reachable_invariant
           (fun s => forall h a, (h, a) ∈ acl s -> exists x y, h = Add x y)).
  - intros h a H. by apply elem_of_nil in H.
  - intros s0 s' _ Hinv Ht. by apply (transition_granted_sums s0 s').
Qed.

(** An empty slot is a ciphertext the contract holds no grant on. *)
Lemma empty_counters_not_held s c pid :
  reachable s ->
  pid < _pollCount s ->
  encryptedCounts (pollAt s pid) = replicate (length (options (pollAt s pid))) Uninit ->
  holdsCounters s c pid = false.
Proof.
  intros Hreach Hex Hfresh.
  destruct (reachable_ok s Hreach) as [Hpolls _].
  destruct (Hpolls pid Hex) as [[Hmin _] _ _ _].
  unfold holdsCounters. rewrite Hfresh.
  destruct (length (options (pollAt s pid))) as [|n]; [lia|].
  cbn [replicate forallb].
  assert (Hno : isAllowed (acl s) Uninit c = false).
  { apply bool_decide_eq_false. intros H.
    destruct (reachable_granted_sums s Hreach _ _ H) as (x & y & Heq). discriminate Heq. }
  rewrite Hno. reflexivity.
Qed.

Lemma counters_ok_frame c s s' :
  counters_ok c s ->
  acl s ⊆ acl s' ->
  (forall q, q < _pollCount s' ->
     (q < _pollCount s
      /\ encryptedCounts (pollAt s' q) = encryptedCounts (pollAt s q)
      /\ totalVoters (pollAt s' q) = totalVoters (pollAt s q)
      /\ options (pollAt s' q) = options (pollAt s q))
     \/ (totalVoters (pollAt s' q) = 0
         /\ encryptedCounts (pollAt s' q)
            = replicate (length (options (pollAt s' q))) Uninit)
     \/ (0 < totalVoters (pollAt s' q) /\ holdsCounters s' c q = true)) ->
  counters_ok c s'.
Proof.
  intros [Hempty Hheld] Hsub Hq. split; intros q Hex Htot.
  - destruct (Hq q Hex) as [(Hex0 & Henc & Hv & Hopt) | [[_ Hfresh] | [Hpos _]]].
    + rewrite Henc, Hopt. apply Hempty; [exact Hex0 | congruence].
    + exact Hfresh.
    + lia.
  - destruct (Hq q Hex) as [(Hex0 & Henc & Hv & Hopt) | [[Hzero _] | [_ H]]].
    + apply (holdsCounters_mono s s'); [exact Hsub | exact Henc |].
      apply Hheld; [exact Hex0 | lia].
    + lia.
    + exact H.
Qed.

Lemma step_counters_ok c s tx :
  this tx.1 = c -> storage_ok s -> counters_ok c s -> counters_ok c (step s tx).
Proof.
  intros Hthis Hok Hinv. destruct tx as [env call]. simpl in Hthis.
  unfold step. simpl. destruct (execute s env call) as [s'| |] eqn:H; try exact Hinv.
  pose proof (execute_transition _ _ _ _ H) as Ht.
  apply (counters_ok_frame c s s' Hinv (transition_acl s s' Ht)).
  intros q Hq.
  destruct call as [t os st et | pid e proof | pid | rid cts sigs].
  - apply execute_shape in H. subst s'. rewrite pollAt_afterCreate.
    simpl in Hq. case_decide as Hd.
    + right. left. split; reflexivity.
    + left. split; [lia|]. auto.
  - simpl in H. pose proof (vote_holdsCounters s env pid e proof s' Hok H) as Hheld.
    rewrite Hthis in Hheld.
    apply vote_Ok_shape in H
      as (counts' & grants' & Hex & _ & _ & _ & _ & _ & _ & _ & ->).
    rewrite pollAt_afterVote. simpl in Hq. case_decide as Hd.
    + subst q. right. right. split; [simpl; lia | exact Hheld].
    + left. auto.
  - apply execute_shape in H. subst s'. rewrite pollAt_afterRequest. simpl in Hq.
    left. case_decide as Hd; [subst q|]; auto.
  - apply execute_shape in H as (stored & ->). rewrite pollAt_afterCallback.
    simpl in Hq. left. case_decide as Hd; [subst q|]; auto.
Qed.

Lemma run_counters_ok c txs :
  Forall (fun tx : Env * Call => this tx.1 = c) txs ->
  storage_ok (run initialState txs) /\ counters_ok c (run initialState txs).
Proof.
  intros Hthis.
  enough (H : forall s, storage_ok s -> counters_ok c s ->
                storage_ok (run s txs) /\ counters_ok c (run s txs)).
  { apply H; [exact initialState_ok|]. split; intros q Hq; simpl in Hq; lia. }
  induction Hthis as [|tx txs Htx _ IH]; intros s Hok Hinv; [auto|].
  rewrite run_cons. apply IH; [by apply step_ok | by apply step_counters_ok].
Qed.

(** X17. [requestFinalization] is accepted exactly when the poll exists, is
    Open, and the contract holds a grant on every counter of the poll;
    neither the caller nor the block time plays a part.  It fails NotFound
    for an unknown poll, AlreadyFinalized for a Finalized poll,
    DecryptionAlreadyPending for a pending one, and, for an Open poll with a
    counter the contract holds no grant on, with the error of the
    access-control list.  An accepted request makes the poll pending under
    the id handed back, maps the id to the poll, hands the counters to the
    authority as they stand and logs [FinalizationRequested]. *)
Theorem requestFinalization_is_accepted_iff (s : State) (env : Env) (pid : N) :
  (forall s',
     requestFinalization s env pid = Ok s' <->
     pid < _pollCount s /\ lifecycleState (pollAt s pid) = Open /\
     holdsCounters s (this env) pid = true /\ s' = afterRequest s env pid) /\
  (_pollCount s <= pid -> fails_with (requestFinalization s env pid) NotFound) /\
  (pid < _pollCount s -> lifecycleState (pollAt s pid) = Finalized ->
     fails_with (requestFinalization s env pid) AlreadyFinalized) /\
  (pid < _pollCount s -> lifecycleState (pollAt s pid) = DecryptionPending ->
     fails_with (requestFinalization s env pid) DecryptionAlreadyPending) /\
  (pid < _pollCount s -> lifecycleState (pollAt s pid) = Open ->
     holdsCounters s (this env) pid = false ->
     requestFinalization s env pid = Revert "SenderNotAllowed") /\
  (forall caller now,
     requestFinalization s (mkEnv caller now (this env) (oracle_requestId env)) pid
     = requestFinalization s env pid) /\
  (lifecycleState (pollAt s pid) = Open ->
     lifecycleState (pollAt (afterRequest s env pid) pid) = DecryptionPending /\
     requestId (pollAt (afterRequest s env pid) pid) = oracle_requestId env /\
     requestToPollAt (afterRequest s env pid) (oracle_requestId env) = pid /\
     requestedCiphertexts (afterRequest s env pid) (oracle_requestId env)
     = Some (encryptedCounts (pollAt s pid)) /\
     events (afterRequest s env pid)
     = FinalizationRequested pid (oracle_requestId env) :: events s).
Proof.
  split; [|split; [|split; [|split; [|split; [|split]]]]].
  - intros s'. split.
    + intros H. pose proof (requestFinalization_Ok_granted _ _ _ _ H) as Hheld.
      apply requestFinalization_Ok_shape in H as (Hex & Hfin & Hpend & ->).
      unfold lifecycleState. rewrite Hfin, Hpend. auto.
    + intros (Hex & Hopen & Hheld & ->). apply lifecycle_Open in Hopen as [Hfin Hpend].
      by apply requestFinalization_accepts.
  - intros Hge. exists "Poll does not exist". split; [|reflexivity].
    unfold requestFinalization, pollExists.
    destruct (N.ltb_spec pid (_pollCount s)); [lia | reflexivity].
  - intros Hex Hl. apply lifecycle_Finalized in Hl.
    exists "Poll already finalized". split; [|reflexivity].
    unfold requestFinalization. rewrite pollExists_Ok by exact Hex.
    cbn zeta. rewrite Hl. reflexivity.
  - intros Hex Hl. exists "Decryption already pending". split; [|reflexivity].
    unfold lifecycleState in Hl.
    destruct (finalized (pollAt s pid)) eqn:Hfin; [discriminate|].
    destruct (decryptionPending (pollAt s pid)) eqn:Hpend; [|discriminate].
    unfold requestFinalization. rewrite pollExists_Ok by exact Hex.
    cbn zeta. rewrite Hfin, Hpend. reflexivity.
  - intros Hex Hopen Hheld. apply lifecycle_Open in Hopen as [Hfin Hpend].
    by apply requestFinalization_refuses.
  - intros caller now. reflexivity.
  - intros Hopen. apply lifecycle_Open in Hopen as [Hfin Hpend].
    rewrite pollAt_afterRequest. rewrite decide_True by reflexivity.
    unfold lifecycleState. cbn [finalized decryptionPending requestId].
    rewrite Hfin. split; [reflexivity|]. split; [reflexivity|]. split.
    + unfold requestToPollAt, afterRequest. cbn [_requestToPoll].
      by rewrite lookup_insert_eq.
    + split; [apply requestedCiphertexts_afterRequest | reflexivity].
Qed.

Lemma requestFinalization_is_accepted_iff_witness :
  requestFinalization votedPoll (sampleEnv bob 60) 0 = Ok pendingPoll /\
  fails_with (requestFinalization votedPoll (sampleEnv bob 60) 5) NotFound /\
  fails_with (requestFinalization finalizedPoll (sampleEnv bob 2000) 0) AlreadyFinalized /\
  fails_with (requestFinalization pendingPoll (sampleEnv bob 61) 0)
             DecryptionAlreadyPending /\
  requestFinalization frameworkPoll (sampleEnv bob 60) 0 = Revert "SenderNotAllowed".
Proof.
  split; [|split; [|split; [|split]]].
  - destruct (requestFinalization_is_accepted_iff votedPoll (sampleEnv bob 60) 0)
      as (Hiff & _).
    apply Hiff. repeat split; vm_compute; reflexivity.
  - destruct (requestFinalization_is_accepted_iff votedPoll (sampleEnv bob 60) 5)
      as (_ & Hunknown & _).
    apply Hunknown. vm_compute. discriminate.
  - destruct (requestFinalization_is_accepted_iff finalizedPoll (sampleEnv bob 2000) 0)
      as (_ & _ & Hfinalized & _).
    apply Hfinalized; vm_compute; reflexivity.
  - destruct (requestFinalization_is_accepted_iff pendingPoll (sampleEnv bob 61) 0)
      as (_ & _ & _ & Hpending & _).
    apply Hpending; vm_compute; reflexivity.
  - destruct (requestFinalization_is_accepted_iff frameworkPoll (sampleEnv bob 60) 0)
      as (_ & _ & _ & _ & Hrefused & _).
    apply Hrefused; vm_compute; reflexivity.
Defined.

(** X18. Finalization needs a vote.  Along any sequence of transactions sent
    to the contract at address [c], the contract holds a grant on the
    counters of a poll exactly when somebody has voted on it: a request to
    finalize an Open poll without voters is always refused (its counters
    are still the empty slots [createPoll] left), and a request to finalize
    an Open poll with at least one voter is always accepted. *)
Theorem finalization_needs_a_vote (c : address) (txs : list (Env * Call))
    (env : Env) (pid : N) :
  Forall (fun tx : Env * Call => this tx.1 = c) txs ->
  this env = c ->
  pid < _pollCount (run initialState txs) ->
  lifecycleState (pollAt (run initialState txs) pid) = Open ->
  (holdsCounters (run initialState txs) c pid = true
   <-> 0 < totalVoters (pollAt (run initialState txs) pid)) /\
  (totalVoters (pollAt (run initialState txs) pid) = 0 ->
     requestFinalization (run initialState txs) env pid = Revert "SenderNotAllowed") /\
  (0 < totalVoters (pollAt (run initialState txs) pid) ->
     requestFinalization (run initialState txs) env pid
     = Ok (afterRequest (run initialState txs) env pid)).
Proof.
  intros Hthis Henv Hex Hopen.
  set (s := run initialState txs) in *.
  assert (Hreach : reachable s) by (by exists txs).
  destruct (run_counters_ok c txs Hthis) as [Hok [Hempty Hheld]]. fold s in Hok, Hempty, Hheld.
  apply lifecycle_Open in Hopen as [Hfin Hpend].
  assert (Hzero : totalVoters (pollAt s pid) = 0 -> holdsCounters s c pid = false).
  { intros Hz. apply empty_counters_not_held; [exact Hreach | exact Hex |].
    by apply Hempty. }
  split; [|split].
  - split.
    + intros Hh. destruct (N.eq_0_gt_0_cases (totalVoters (pollAt s pid))) as [Hz | Hpos];
        [|exact Hpos].
      rewrite (Hzero Hz) in Hh. discriminate Hh.
    + by apply Hheld.
  - intros Hz. apply requestFinalization_refuses; try assumption.
    rewrite Henv. by apply Hzero.
  - intros Hpos. apply requestFinalization_accepts; try assumption.
    rewrite Henv. by apply Hheld.
Qed.

Lemma finalization_needs_a_vote_witness :
  requestFinalization
    (run initialState
       [(sampleEnv deployer 100,
         CreatePoll "Best Framework" ["React"; "Vue"; "Angular"] 50 1000)])
    (sampleEnv deployer 104) 0
  = Revert "SenderNotAllowed".
Proof.
  destruct (finalization_needs_a_vote 4096
              [(sampleEnv deployer 100,
                CreatePoll "Best Framework" ["React"; "Vue"; "Angular"] 50 1000)]
              (sampleEnv deployer 104) 0) as (_ & Hrefused & _).
  - repeat constructor.
  - reflexivity.
  - vm_compute. reflexivity.
  - vm_compute. reflexivity.
  - apply Hrefused. vm_compute. reflexivity.
Defined.

(** ** Request and honest answer, composed *)

(** X16. Along any sequence of transactions sent to the contract at one
    address, for an Open poll on which at least one ballot was cast, a
    finalization request followed by the authority's honest answer always
    goes through, whoever sends the two transactions and whenever: the poll
    ends Finalized, its results are the cleartexts of the counters as they
    stood when the request was made, they add up to no more than
    [totalVoters], and [totalVoters] is unchanged.  On an Open poll without
    voters the request is refused, so there is nothing to answer. *)
Theorem honest_finalization_reveals_the_tally (c : address) (txs : list (Env * Call))
    (envR envC : Env) (sigs : list bytes) (pid : N) :
  Forall (fun tx : Env * Call => this tx.1 = c) txs ->
  this envR = c ->
  pid < _pollCount (run initialState txs) ->
  lifecycleState (pollAt (run initialState txs) pid) = Open ->
  (0 < totalVoters (pollAt (run initialState txs) pid) ->
   exists f,
     finalize (run initialState txs) envR envC sigs pid = Ok f /\
     lifecycleState (pollAt f pid) = Finalized /\
     getResults f pid
     = Ok (decrypt <$> encryptedCounts (pollAt (run initialState txs) pid)) /\
     getTotalVoters f pid = getTotalVoters (run initialState txs) pid /\
     sum (decrypt <$> encryptedCounts (pollAt (run initialState txs) pid))
     <= totalVoters (pollAt (run initialState txs) pid)) /\
  (totalVoters (pollAt (run initialState txs) pid) = 0 ->
   finalize (run initialState txs) envR envC sigs pid = Revert "SenderNotAllowed").
Proof.
  intros Hthis Henv Hpid Hopen.
  set (s := run initialState txs) in *.
  assert (Hreach : reachable s) by (by exists txs).
  destruct (run_counters_ok c txs Hthis) as [Hok [Hempty Hheld]]. fold s in Hok, Hempty, Hheld.
  split.
  - intros Hpos.
    assert (Hh : holdsCounters s (this envR) pid = true) by (rewrite Henv; by apply Hheld).
    destruct (finalize_reveals s envR envC sigs pid Hok Hpid Hopen Hh)
      as (f & Hf & Hres & Htot & Hlife).
    exists f. split; [exact Hf|]. split; [exact Hlife|]. split; [exact Hres|]. split.
    + rewrite Htot. unfold getTotalVoters. by rewrite pollExists_Ok.
    + by apply reachable_tally.
  - intros Hz. apply lifecycle_Open in Hopen as [Hfin Hpend].
    unfold finalize. rewrite requestFinalization_refuses; try assumption; [reflexivity|].
    apply empty_counters_not_held; [exact Hreach | exact Hpid | by apply Hempty].
Qed.

Lemma honest_finalization_reveals_the_tally_witness :
  exists f,
    finalize (run initialState (firstn 4 sampleTrace))
             (sampleEnv mallory 104) (sampleEnv oracle 105) [] 0 = Ok f /\
    getResults f 0 = Ok [2; 1; 0].
Proof.
  assert (Hthis : Forall (fun tx : Env * Call => this tx.1 = 4096) (firstn 4 sampleTrace))
    by (repeat constructor).
  assert (Hex : 0 < _pollCount (run initialState (firstn 4 sampleTrace)))
    by (vm_compute; reflexivity).
  assert (Hopen : lifecycleState (pollAt (run initialState (firstn 4 sampleTrace)) 0) = Open)
    by (vm_compute; reflexivity).
  destruct (honest_finalization_reveals_the_tally 4096 (firstn 4 sampleTrace)
              (sampleEnv mallory 104) (sampleEnv oracle 105) [] 0
              Hthis eq_refl Hex Hopen) as (Hvoted & _).
  destruct Hvoted as (f & Hf & _ & Hres & _); [vm_compute; reflexivity|].
  assert (Hcounts : decrypt <$> encryptedCounts
                      (pollAt (run initialState (firstn 4 sampleTrace)) 0) = [2; 1; 0])
    by (vm_compute; reflexivity).
  rewrite Hcounts in Hres. exists f. split; [exact Hf | exact Hres].
Defined.

(** ** The options of the command-line task *)

Lemma split_comma_nonempty s : split_comma s <> [].
Proof.
  destruct s as [|c rest]; simpl; [discriminate|].
  destruct (Ascii.eqb c ","); [discriminate|].
  destruct (split_comma rest); discriminate.
Qed.

Lemma split_comma_length s : length (split_comma s) = S (commas s).
Proof.
  induction s as [|c rest IH]; [reflexivity|]. simpl.
  destruct (Ascii.eqb c ","); simpl; [by rewrite IH|].
  destruct (split_comma rest) as [|piece pieces] eqn:Hsplit.
  - by destruct (split_comma_nonempty rest).
  - simpl in *. exact IH.
Qed.

Lemma join_comma_cons c piece pieces :
  join_comma (String c piece :: pieces) = String c (join_comma (piece :: pieces)).
Proof. destruct pieces; reflexivity. Qed.

Lemma join_split_comma s : join_comma (split_comma s) = s.
Proof.
  induction s as [|c rest IH]; [reflexivity|]. cbn [split_comma].
  destruct (split_comma rest) as [|piece pieces] eqn:Hsplit;
    [by destruct (split_comma_nonempty rest)|].
  destruct (Ascii.eqb_spec c ",") as [->|Hc].
  - change (join_comma (EmptyString :: piece :: pieces))
      with (String "," (join_comma (piece :: pieces))).
    by rewrite IH.
  - by rewrite join_comma_cons, IH.
Qed.

(** X14. The command-line task passes one option per comma-separated piece
    of its [options] argument, so exactly one more than there are commas
    (joining the pieces with commas gives the argument back).  Hence, for a
    non-empty title, the contract turns the task's call away with "Must
    have 2-16 options" whenever the argument has no comma or more than 15
    commas, whatever the pieces are; with 1 to 15 commas, a non-empty title
    and a valid window the poll is created, empty pieces included. *)
Theorem task_options_follow_the_commas (trim : string -> string)
    (s : State) (env : Env) (t options : string) (st et : N) :
  length (taskOptions trim options) = S (commas options) /\
  join_comma (split_comma options) = options /\
  (t <> EmptyString -> (commas options = 0 \/ 15 < commas options)%nat ->
     createPoll s env t (taskOptions trim options) st et
     = Revert "Must have 2-16 options") /\
  (t <> EmptyString -> (1 <= commas options <= 15)%nat ->
   st < et -> block_timestamp env < et -> _pollCount s < uint256_max ->
     exists s', createPoll s env t (taskOptions trim options) st et
                = Ok (s', _pollCount s)).
Proof.
  assert (Hlen : length (taskOptions trim options) = S (commas options)).
  { unfold taskOptions. rewrite length_map. apply split_comma_length. }
  split; [exact Hlen|]. split; [apply join_split_comma|]. split.
  - intros Ht Hc. unfold createPoll.
    rewrite (nonempty_title_length t Ht), Hlen.
    assert (Hb : (2 <=? S (commas options))%nat && (S (commas options) <=? 16)%nat = false).
    { destruct (Nat.leb_spec 2 (S (commas options))),
               (Nat.leb_spec (S (commas options)) 16); try lia; reflexivity. }
    rewrite Hb. reflexivity.
  - intros Ht Hc Hse Hfut Hmax. eexists.
    apply createPoll_accepts; auto. rewrite Hlen. lia.
Qed.

Lemma task_options_follow_the_commas_witness :
  taskOptions id "Red,,Blue" = ["Red"; EmptyString; "Blue"] /\
  createPoll initialState (sampleEnv deployer 100) "Colour" (taskOptions id "Red") 100 200
  = Revert "Must have 2-16 options" /\
  exists s', createPoll initialState (sampleEnv deployer 100) "Colour"
               (taskOptions id "Red,,Blue") 100 200 = Ok (s', 0).
Proof.
  split; [reflexivity|].
  destruct (task_options_follow_the_commas id initialState (sampleEnv deployer 100)
              "Colour" "Red" 100 200) as (_ & _ & Hreject & _).
  destruct (task_options_follow_the_commas id initialState (sampleEnv deployer 100)
              "Colour" "Red,,Blue" 100 200) as (_ & _ & _ & Haccept).
  split.
  - apply Hreject; [discriminate | left; reflexivity].
  - apply Haccept; [discriminate | simpl; lia | reflexivity | reflexivity | reflexivity].
Defined.
